(** * decompress-roundtripper: a shallow embedding of [roundtripper.go]

  The development follows the Go source top-down: the pieces of the Go
  standard library that [RoundTrip] calls ([strings], [net/http] headers,
  [compress/flate], [compress/gzip]) come first, then the types of the
  package ([RoundTripper], [ErrUnsupportedEncoding], [cascadeReadCloser]),
  then [RoundTrip] itself, and last the theorems. *)

From Stdlib Require Import NArith ZArith Ascii String List Bool Lia.
From Stdlib Require Import Strings.Byte DecimalString.
From stdpp Require Import base option gmap strings.
Import ListNotations.

Local Open Scope string_scope.
Local Open Scope list_scope.

Abbreviation bytes := (list Byte.byte).

(** ** Package [strings] *)

Module strings.

Fixpoint HasPrefix (s prefix : string) : bool :=
  match prefix, s with
  | EmptyString, _ => true
  | String a p, String b s' => Ascii.eqb a b && HasPrefix s' p
  | String _ _, EmptyString => false
  end.

(** [genSplit s sep 0 (-1)]: cut [s] at every non-overlapping occurrence
    of [sep], scanning from the left.  [skip] counts the bytes of an
    occurrence that are still to be dropped, [cur] is the piece being
    collected, last byte first. *)
Fixpoint genSplit (sep s : string) (skip : nat) (cur : string) : list string :=
  match s with
  | EmptyString => [String.rev cur]
  | String c s' =>
      match skip with
      | S k => genSplit sep s' k cur
      | O =>
          if HasPrefix s sep
          then String.rev cur :: genSplit sep s' (String.length sep - 1) EmptyString
          else genSplit sep s' O (String c cur)
      end
  end.

(** [strings.Split].  With an empty separator Go explodes the string into
    UTF-8 sequences; [RoundTrip] only ever passes [","], and the empty
    separator is mapped to the byte-wise explosion here. *)
Definition Split (s sep : string) : list string :=
  match sep with
  | EmptyString => map (fun c => String c EmptyString) (list_ascii_of_string s)
  | _ => genSplit sep s O EmptyString
  end.

(** [unicode.IsSpace] on the UTF-8 encodings of the white space runes:
    the six ASCII ones, U+0085, U+00A0, U+1680, U+2000..U+200A, U+2028,
    U+2029, U+202F, U+205F and U+3000. *)
Definition spaceSeqs : list (list N) :=
  [ [9]; [10]; [11]; [12]; [13]; [32];
    [194; 133]; [194; 160]; [225; 154; 128];
    [226; 128; 128]; [226; 128; 129]; [226; 128; 130]; [226; 128; 131];
    [226; 128; 132]; [226; 128; 133]; [226; 128; 134]; [226; 128; 135];
    [226; 128; 136]; [226; 128; 137]; [226; 128; 138];
    [226; 128; 168]; [226; 128; 169]; [226; 128; 175];
    [226; 129; 159]; [227; 128; 128] ]%N.

Fixpoint stripSeq (q : list N) (s : list ascii) : option (list ascii) :=
  match q, s with
  | [], _ => Some s
  | n :: q', c :: s' => if N.eqb n (N_of_ascii c) then stripSeq q' s' else None
  | _ :: _, [] => None
  end.

(** The first white space rune of [s] removed, if [s] starts with one.
    [seqs] is given in reading direction. *)
Fixpoint stripSpace (seqs : list (list N)) (s : list ascii) : option (list ascii) :=
  match seqs with
  | [] => None
  | q :: rest =>
      match stripSeq q s with
      | Some s' => Some s'
      | None => stripSpace rest s
      end
  end.

Fixpoint trimLeft (seqs : list (list N)) (fuel : nat) (s : list ascii) : list ascii :=
  match fuel with
  | O => s
  | S fuel' =>
      match stripSpace seqs s with
      | Some s' => trimLeft seqs fuel' s'
      | None => s
      end
  end.

(** [strings.TrimSpace]: leading and trailing white space removed, "as
    defined by Unicode".  The trailing side works on the reversed string
    with the reversed byte sequences. *)
Definition TrimSpace (s : string) : string :=
  let l := list_ascii_of_string s in
  let l1 := trimLeft spaceSeqs (length l) l in
  let r := trimLeft (map (@rev N) spaceSeqs) (length l1) (rev l1) in
  string_of_list_ascii (rev r).

End strings.

(** ** [net/textproto] and [net/http]: header maps *)

Module textproto.

Definition isLower (c : ascii) : bool :=
  let n := N_of_ascii c in ((97 <=? n) && (n <=? 122))%N.
Definition isUpper (c : ascii) : bool :=
  let n := N_of_ascii c in ((65 <=? n) && (n <=? 90))%N.
Definition isDigit (c : ascii) : bool :=
  let n := N_of_ascii c in ((48 <=? n) && (n <=? 57))%N.

(** [validHeaderFieldByte]: the token characters of RFC 7230. *)
Definition validHeaderFieldByte (c : ascii) : bool :=
  isLower c || isUpper c || isDigit c ||
  existsb (Ascii.eqb c)
    (list_ascii_of_string "!#$%&'*+-.^_`|~").

Definition toLower : N := 32.

Fixpoint canon (upper : bool) (s : list ascii) : list ascii :=
  match s with
  | [] => []
  | c :: s' =>
      let c' :=
        if upper && isLower c then ascii_of_N (N_of_ascii c - toLower)
        else if negb upper && isUpper c then ascii_of_N (N_of_ascii c + toLower)
        else c in
      c' :: canon (Ascii.eqb c' "-"%char) s'
  end.

(** [CanonicalMIMEHeaderKey]: a key with a byte that is no token character
    is returned as it is; the others get their first letter and every
    letter after a hyphen in upper case, the rest in lower case. *)
Definition CanonicalMIMEHeaderKey (s : string) : string :=
  let l := list_ascii_of_string s in
  if forallb validHeaderFieldByte l
  then string_of_list_ascii (canon true l)
  else s.

End textproto.

Module http.

(** [type Header map[string][]string] *)
Abbreviation Header := (gmap string (list string)).

Definition Header_Get (h : Header) (key : string) : string :=
  match h !! textproto.CanonicalMIMEHeaderKey key with
  | Some (v :: _) => v
  | _ => ""
  end.

Definition Header_Del (h : Header) (key : string) : Header :=
  delete (textproto.CanonicalMIMEHeaderKey key) h.

(** [Header.Set], used by the tests to build responses. *)
Definition Header_Set (h : Header) (key value : string) : Header :=
  <[textproto.CanonicalMIMEHeaderKey key := [value]]> h.

End http.

(** ** Errors and package [io] *)

(** Go's [error] values, as far as this package meets them: the strings
    made by [errors.New] and by [fmt.Errorf] without [%w], the wrappers
    made by [fmt.Errorf] with [%w], and [flate.CorruptInputError]. *)
Inductive error : Type :=
| errorString (s : string)
| wrapError (msg : string) (err : error)
| CorruptInputError (off : N).

Definition itoa (n : N) : string := NilEmpty.string_of_uint (N.to_uint n).

Definition Error (e : error) : string :=
  match e with
  | errorString s => s
  | wrapError msg _ => msg
  | CorruptInputError off => "flate: corrupt input before offset " ++ itoa off
  end.

(** [errors.Unwrap] *)
Definition Unwrap (e : error) : option error :=
  match e with
  | wrapError _ err => Some err
  | _ => None
  end.

Module io.

Definition EOF : error := errorString "EOF".
Definition ErrUnexpectedEOF : error := errorString "unexpected EOF".

(** [err == io.EOF].  Errors made with [errors.New] are told apart by
    their text. *)
Definition isEOF (e : error) : bool :=
  match e with
  | errorString "EOF" => true
  | _ => false
  end.

(** [noEOF] of the decoders: an [io.EOF] in the middle of a stream is
    reported as [io.ErrUnexpectedEOF]. *)
Definition noEOF (e : error) : error :=
  if isEOF e then ErrUnexpectedEOF else e.

(** A reader in its current state: [taken] bytes have been read from it,
    the bytes of [out] are still to come in this order, then [stop] for
    ever ([io.EOF] at a regular end).  Readers are stacked and pull from
    their source on demand: every byte of [out] carries the number of
    bytes that must have been taken from the source, since the source
    came into being, before the byte can be delivered, and [stopAt] is
    that number for [stop].  Demand is counted at its minimum, as for a
    source that implements [io.ByteReader]; Go's buffered readers may
    have taken more. *)
Record Reader : Type := mkReader {
  taken : nat;
  out : list (Byte.byte * nat);
  stop : error;
  stopAt : nat
}.

(** [io.ReadAll]: the bytes, and the error unless it is [io.EOF]. *)
Definition ReadAll (r : Reader) : bytes * option error :=
  (map fst (out r), if isEOF (stop r) then None else Some (stop r)).

(** The reader seen from the reader stacked on it: its bytes numbered by
    their place in its stream, its end one place after the last byte. *)
Definition asSource (r : Reader) : Reader :=
  mkReader (taken r)
           (combine (map fst (out r)) (seq (S (taken r)) (length (out r))))
           (stop r)
           (S (taken r + length (out r))).

(** The reader after it has been read up to place [p] of its stream (one
    place past the last byte: its end has been seen), and the place up
    to which its own source has been read for that, if at all. *)
Definition readTo (p : nat) (r : Reader) : Reader * option nat :=
  let k := p - taken r in
  match k with
  | O => (r, None)
  | S k' =>
      (mkReader (taken r + Nat.min k (length (out r))) (skipn k (out r)) (stop r) (stopAt r),
       Some (match nth_error (out r) k' with
             | Some (_, t) => t
             | None => stopAt r
             end))
  end.

End io.

(** ** Package [compress/flate]: the DEFLATE decoder (RFC 1951) *)

Module flate.

(** The bytes still to be read, each with its demand; the number of bits
    already taken from the first of them (least significant bit first);
    the number of bits read so far; the demand of the last bit read. *)
Record bitreader : Type := mkBR {
  rest : list (Byte.byte * nat);
  pos : N;
  nbits : N;
  last : nat
}.

Inductive res (A : Type) : Type :=
| Ok (a : A) (s : bitreader)
| Fail (e : error) (t : nat).
Arguments Ok {A} a s.
Arguments Fail {A} e t.

Definition bind {A B} (m : bitreader -> res A) (k : A -> bitreader -> res B)
  : bitreader -> res B :=
  fun s => match m s with
           | Ok a s' => k a s'
           | Fail e t => Fail e t
           end.
Definition retn {A} (a : A) : bitreader -> res A := fun s => Ok a s.

Notation "x <~ m ;; k" := (bind m (fun x => k))
  (at level 100, m at next level, right associativity).

(** [f.roffset]: the bytes fetched from the source so far. *)
Definition roffset (s : bitreader) : N := (nbits s + 7) / 8.

Definition corrupt {A} : bitreader -> res A :=
  fun s => Fail (CorruptInputError (roffset s)) (last s).

Definition byteOfN (n : N) : Byte.byte :=
  match Byte.of_N n with
  | Some b => b
  | None => Byte.x00
  end.

Abbreviation output := (list (Byte.byte * nat)).

Section Decoder.

(** How the source ends. *)
Variable srcStop : error.
Variable srcStopAt : nat.

(** One bit; [moreBits] fails with [noEOF] of the source's error when the
    source is exhausted. *)
Definition moreBit : bitreader -> res bool :=
  fun s => match rest s with
           | [] => Fail (io.noEOF srcStop) (Nat.max (last s) srcStopAt)
           | (b, t) :: r =>
               let bit := N.testbit (Byte.to_N b) (pos s) in
               if (pos s =? 7)%N
               then Ok bit (mkBR r 0 (nbits s + 1) t)
               else Ok bit (mkBR (rest s) (pos s + 1) (nbits s + 1) t)
           end.

(** [n] bits as a number, least significant bit first. *)
Fixpoint readBits (n : nat) : bitreader -> res N :=
  match n with
  | O => retn 0%N
  | S n' => b <~ moreBit ;; v <~ readBits n' ;; retn ((if b then 1 else 0) + 2 * v)%N
  end.

(** [n] bits as a number, most significant bit first. *)
Fixpoint readBitsRev (n : nat) (acc : N) : bitreader -> res N :=
  match n with
  | O => retn acc
  | S n' => b <~ moreBit ;; readBitsRev n' (2 * acc + (if b then 1 else 0))%N
  end.

(** Drop what is left of the current byte ([f.nb = 0; f.b = 0]). *)
Definition alignByte (s : bitreader) : bitreader :=
  if (pos s =? 0)%N then s
  else mkBR (tl (rest s)) 0 (nbits s + (8 - pos s)) (last s).

(** *** Huffman tables *)

(** [counts]: the number of codes of length 1, 2, ... up to the longest;
    [syms]: the symbols in the order of their codes. *)
Record huffmanDecoder : Type := mkHuff {
  counts : list N;
  syms : list N
}.

Definition countLen (lens : list N) (l : N) : N :=
  N.of_nat (length (filter (N.eqb l) lens)).

Fixpoint indexed {A} (i : N) (l : list A) : list (N * A) :=
  match l with
  | [] => []
  | a :: l' => (i, a) :: indexed (i + 1)%N l'
  end.

Definition symsOfLen (lens : list N) (l : N) : list N :=
  map fst (filter (fun p => N.eqb (snd p) l) (indexed 0 lens)).

Definition maxLen (lens : list N) : N := fold_right N.max 0%N lens.

Definition lengthsUpTo (m : N) : list N := map N.of_nat (seq 1 (N.to_nat m)).

(** The value of [code] after the loop of [huffmanDecoder.init]: the Kraft
    sum of the lengths, scaled by [2^max]. *)
Definition kraft (lens : list N) (m : N) : N :=
  fold_right (fun l acc => acc + countLen lens l * 2 ^ (m - l))%N 0%N (lengthsUpTo m).

(** [huffmanDecoder.init]: [None] where Go returns [false].  The empty
    table is accepted (using it fails later); a table must otherwise be
    complete, apart from the single code of length one. *)
Definition huffInit (lens : list N) : option huffmanDecoder :=
  let m := maxLen lens in
  if N.eqb m 0 then Some (mkHuff [] [])
  else
    let code := kraft lens m in
    if N.eqb code (2 ^ m) || (N.eqb code 1 && N.eqb m 1)
    then Some (mkHuff (map (countLen lens) (lengthsUpTo m))
                      (flat_map (symsOfLen lens) (lengthsUpTo m)))
    else None.

(** [huffSym]: read a code bit by bit until it is one of the table. *)
Fixpoint huffSymGo (cs : list N) (sy : list N) (code first index : N)
  : bitreader -> res N :=
  match cs with
  | [] => corrupt
  | count :: cs' =>
      b <~ moreBit ;;
      let code := (code + (if b then 1 else 0))%N in
      if (code <? first + count)%N
      then retn (nth (N.to_nat (index + (code - first))) sy 0%N)
      else huffSymGo cs' sy (2 * code) (2 * (first + count)) (index + count)%N
  end.

Definition huffSym (h : huffmanDecoder) : bitreader -> res N :=
  huffSymGo (counts h) (syms h) 0 0 0.

(** *** Block headers *)

Definition codeOrder : list N :=
  [16; 17; 18; 0; 8; 7; 9; 6; 10; 5; 11; 4; 12; 3; 13; 2; 14; 1; 15]%N.

Definition maxNumLit : N := 286.
Definition maxNumDist : N := 30.

(** [fixedHuffmanDecoderInit] *)
Definition fixedLengths : list N :=
  (repeat 8 144 ++ repeat 9 112 ++ repeat 7 24 ++ repeat 8 8)%N.

Fixpoint readCodeBits (n : nat) : bitreader -> res (list N) :=
  match n with
  | O => retn []
  | S n' => v <~ readBits 3 ;; vs <~ readCodeBits n' ;; retn (v :: vs)
  end.

(** [f.codebits]: the [i]-th value read belongs to symbol [codeOrder[i]],
    the symbols not read have length 0. *)
Definition codebits (vals : list N) : list N :=
  map (fun sym =>
         match find (fun p => N.eqb (fst p) sym) (combine codeOrder vals) with
         | Some p => snd p
         | None => 0%N
         end)
      (map N.of_nat (seq 0 19)).

(** The loop of [readHuffman] that reads the [n] code lengths of the
    literal and distance tables; [acc] holds [f.bits[0:i]], last first. *)
Fixpoint readLengths (fuel : nat) (h : huffmanDecoder) (n : nat) (acc : list N)
  : bitreader -> res (list N) :=
  if (n <=? length acc)%nat then retn (rev acc)
  else
    match fuel with
    | O => corrupt
    | S fuel' =>
        x <~ huffSym h ;;
        if (x <? 16)%N then readLengths fuel' h n (x :: acc)
        else
          let again (rep0 : N) (nb : nat) (b : N) :=
            e <~ readBits nb ;;
            let rep := N.to_nat (rep0 + e) in
            if (n <? length acc + rep)%nat then corrupt
            else readLengths fuel' h n (repeat b rep ++ acc) in
          if (x =? 16)%N then
            match acc with
            | [] => corrupt
            | b :: _ => again 3%N 2%nat b
            end
          else if (x =? 17)%N then again 3%N 3%nat 0%N
          else again 11%N 7%nat 0%N
    end.

(** [readHuffman]: the two tables of a dynamic block. *)
Definition readHuffman : bitreader -> res (huffmanDecoder * huffmanDecoder) :=
  hlit <~ readBits 5 ;;
  hdist <~ readBits 5 ;;
  hclen <~ readBits 4 ;;
  let nlit := (hlit + 257)%N in
  let ndist := (hdist + 1)%N in
  let nclen := (hclen + 4)%N in
  if (maxNumLit <? nlit)%N then corrupt
  else if (maxNumDist <? ndist)%N then corrupt
  else
    vals <~ readCodeBits (N.to_nat nclen) ;;
    match huffInit (codebits vals) with
    | None => corrupt
    | Some h =>
        let n := N.to_nat (nlit + ndist) in
        bits <~ readLengths n h n [] ;;
        match huffInit (firstn (N.to_nat nlit) bits),
              huffInit (skipn (N.to_nat nlit) bits) with
        | Some h1, Some h2 => retn (h1, h2)
        | _, _ => corrupt
        end
    end.

(** *** Blocks *)

(** Where the decoder stands ([f.step]): before a block header, inside a
    stored block with [n] bytes to copy, or inside a Huffman block.  The
    distance table of a fixed block is absent ([f.hd == nil]). *)
Inductive mode : Type :=
| NextBlock
| Stored (final : bool) (n : nat)
| Huff (final : bool) (hl : huffmanDecoder) (hd : option huffmanDecoder).

(** [finishBlock] *)
Definition finishBlock (final : bool) : option mode :=
  if final then None else Some NextBlock.

(** The match of [length] bytes at distance [dist] copied to the output
    (which is kept last byte first). *)
Fixpoint writeCopy (length dist t : nat) (outr : output) : output :=
  match length with
  | O => outr
  | S l => writeCopy l dist t ((fst (nth (dist - 1) outr (Byte.x00, O)), t) :: outr)
  end.

(** Length symbols 257..285: base length and number of extra bits. *)
Definition lengthCode (v : N) : option (N * nat) :=
  if (v <? 265)%N then Some ((v - (257 - 3))%N, 0%nat)
  else if (v <? 269)%N then Some ((v * 2 - (265 * 2 - 11))%N, 1%nat)
  else if (v <? 273)%N then Some ((v * 4 - (269 * 4 - 19))%N, 2%nat)
  else if (v <? 277)%N then Some ((v * 8 - (273 * 8 - 35))%N, 3%nat)
  else if (v <? 281)%N then Some ((v * 16 - (277 * 16 - 67))%N, 4%nat)
  else if (v <? 285)%N then Some ((v * 32 - (281 * 32 - 131))%N, 5%nat)
  else if (v <? maxNumLit)%N then Some (258%N, 0%nat)
  else None.

Definition readDist (hd : option huffmanDecoder) : bitreader -> res N :=
  d <~ match hd with
       | None => readBitsRev 5 0
       | Some h => huffSym h
       end ;;
  if (d <? 4)%N then retn (d + 1)%N
  else if (d <? maxNumDist)%N then
    let nb := ((d - 2) / 2)%N in
    e <~ readBits (N.to_nat nb) ;;
    retn (2 ^ (nb + 1) + 1 + ((d mod 2) * 2 ^ nb + e))%N
  else corrupt.

(** One step of the decoder: a block header, one byte of a stored block,
    or one symbol of a Huffman block.  [None] for the mode ends the
    stream. *)
Definition step (m : mode) (outr : output) : bitreader -> res (option mode * output) :=
  match m with
  | NextBlock =>
      final <~ moreBit ;;
      typ <~ readBits 2 ;;
      if (typ =? 0)%N then
        fun s =>
          (n <~ readBits 16 ;;
           nn <~ readBits 16 ;;
           if negb (nn =? N.lxor n 65535)%N then corrupt
           else if (n =? 0)%N then retn (finishBlock final, outr)
           else retn (Some (Stored final (N.to_nat n)), outr)) (alignByte s)
      else if (typ =? 1)%N then
        match huffInit fixedLengths with
        | Some h => retn (Some (Huff final h None), outr)
        | None => corrupt
        end
      else if (typ =? 2)%N then
        hs <~ readHuffman ;;
        retn (Some (Huff final (fst hs) (Some (snd hs))), outr)
      else corrupt
  | Stored final n =>
      v <~ readBits 8 ;;
      fun s =>
        let outr' := (byteOfN v, last s) :: outr in
        match n with
        | S (S n') => Ok (Some (Stored final (S n')), outr') s
        | _ => Ok (finishBlock final, outr') s
        end
  | Huff final hl hd =>
      v <~ huffSym hl ;;
      if (v <? 256)%N then
        fun s => Ok (Some m, (byteOfN v, last s) :: outr) s
      else if (v =? 256)%N then retn (finishBlock final, outr)
      else
        match lengthCode v with
        | None => corrupt
        | Some (base, n) =>
            e <~ readBits n ;;
            dist <~ readDist hd ;;
            if (N.min (N.of_nat (length outr)) 32768 <? dist)%N then corrupt
            else
              fun s =>
                Ok (Some m, writeCopy (N.to_nat (base + e)) (N.to_nat dist) (last s) outr) s
        end
  end.

(** The decoder run to the end of the stream or to its first error.
    Every step that succeeds reads at least one bit, so [fuel] above the
    number of bits of the input is never used up. *)
Fixpoint run (fuel : nat) (m : mode) (outr : output) (s : bitreader)
  : output * ((error * nat) + bitreader) :=
  match fuel with
  | O => (outr, inl (io.ErrUnexpectedEOF, last s))
  | S fuel' =>
      match step m outr s with
      | Fail e t => (outr, inl (e, t))
      | Ok (None, outr') s' => (outr', inr s')
      | Ok (Some m', outr') s' => run fuel' m' outr' s'
      end
  end.

End Decoder.

(** The DEFLATE stream at the start of [src] decoded: the output (first
    byte first), and either the error that ended it or the input left
    after the last block. *)
Definition inflate (src : list (Byte.byte * nat)) (srcStop : error) (srcStopAt : nat)
  (t0 : nat) : output * ((error * nat) + bitreader) :=
  let r := run srcStop srcStopAt (S (8 * length src)) NextBlock [] (mkBR src 0 0 t0) in
  (rev (fst r), snd r).

(** [flate.NewReader] on the source [r]: nothing is read before the first
    [Read]. *)
Definition NewReader (r : io.Reader) : io.Reader :=
  match inflate (io.out r) (io.stop r) (io.stopAt r) (io.taken r) with
  | (o, inl (e, t)) => io.mkReader O o e t
  | (o, inr s) => io.mkReader O o io.EOF (last s)
  end.

End flate.

(** ** Package [hash/crc32] *)

Module crc32.

Definition IEEE : N := 0xEDB88320.

Fixpoint shift8 (n : nat) (c : N) : N :=
  match n with
  | O => c
  | S n' => shift8 n' (if N.testbit c 0 then N.lxor (N.shiftr c 1) IEEE else N.shiftr c 1)
  end.

(** The register after the bytes of [p]. *)
Definition update (c : N) (p : bytes) : N :=
  fold_left (fun c b => shift8 8 (N.lxor c (Byte.to_N b))) p c.

(** [crc32.Update crc crc32.IEEETable p] *)
Definition Update (crc : N) (p : bytes) : N :=
  N.lxor (update (N.lxor crc 0xFFFFFFFF) p) 0xFFFFFFFF.

Definition ChecksumIEEE (p : bytes) : N := Update 0 p.

End crc32.

(** ** Package [compress/gzip]: the gzip reader (RFC 1952) *)

Module gzip.

Import flate.

Definition ErrChecksum : error := errorString "gzip: invalid checksum".
Definition ErrHeader : error := errorString "gzip: invalid header".

Definition gzipID1 : N := 0x1f.
Definition gzipID2 : N := 0x8b.
Definition gzipDeflate : N := 8.
Definition flagHdrCrc : N := 2.
Definition flagExtra : N := 4.
Definition flagName : N := 8.
Definition flagComment : N := 16.

(** Little-endian number of a byte slice. *)
Definition le (p : bytes) : N :=
  fold_right (fun b acc => Byte.to_N b + 256 * acc)%N 0%N p.

Section Reader.

Variable srcStop : error.
Variable srcStopAt : nat.

(** [io.ReadFull]: [n] bytes, or the error of the source; an [io.EOF]
    after some but not all bytes is [io.ErrUnexpectedEOF]. *)
Definition ReadFull (n : nat) : bitreader -> res bytes :=
  fun s =>
    let l := rest s in
    if (n <=? length l)%nat
    then Ok (map fst (firstn n l))
            (mkBR (skipn n l) 0 (nbits s + 8 * N.of_nat n)
                  (List.last (map snd (firstn n l)) (last s)))
    else Fail (match l with [] => srcStop | _ => io.noEOF srcStop end)
              (Nat.max (last s) srcStopAt).

Definition failWith {A} (e : error) : bitreader -> res A :=
  fun s => Fail e (last s).

(** [ReadFull] with [noEOF] applied to its error. *)
Definition readFullNoEOF (n : nat) : bitreader -> res bytes :=
  fun s => match ReadFull n s with
           | Fail e t => Fail (io.noEOF e) t
           | r => r
           end.

(** [readString]: the bytes up to a NUL, which must come within the 512
    bytes of [z.buf]; the digest covers the NUL. *)
Fixpoint readString (room : nat) (acc : bytes) : bitreader -> res bytes :=
  match room with
  | O => failWith ErrHeader
  | S room' =>
      b <~ ReadFull 1 ;;
      match b with
      | [c] => if (Byte.to_N c =? 0)%N then retn (rev (c :: acc))
               else readString room' (c :: acc)
      | _ => failWith ErrHeader
      end
  end.

(** [readHeader].  The error of the read of the ten fixed bytes is
    returned as it is: a source that ends there ends the stream of
    members with [io.EOF]. *)
Definition readHeader : bitreader -> res unit :=
  buf <~ ReadFull 10 ;;
  if negb ((Byte.to_N (nth 0 buf Byte.x00) =? gzipID1)%N
           && (Byte.to_N (nth 1 buf Byte.x00) =? gzipID2)%N
           && (Byte.to_N (nth 2 buf Byte.x00) =? gzipDeflate)%N)
  then failWith ErrHeader
  else
    let flg := Byte.to_N (nth 3 buf Byte.x00) in
    let digest := crc32.ChecksumIEEE buf in
    digest <~ (if negb (N.land flg flagExtra =? 0)%N
               then len <~ readFullNoEOF 2 ;;
                    data <~ readFullNoEOF (N.to_nat (le len)) ;;
                    retn (crc32.Update (crc32.Update digest len) data)
               else retn digest) ;;
    digest <~ (if negb (N.land flg flagName =? 0)%N
               then str <~ (fun s => match readString 512 [] s with
                                     | Fail e t => Fail (io.noEOF e) t
                                     | r => r
                                     end) ;;
                    retn (crc32.Update digest str)
               else retn digest) ;;
    digest <~ (if negb (N.land flg flagComment =? 0)%N
               then str <~ (fun s => match readString 512 [] s with
                                     | Fail e t => Fail (io.noEOF e) t
                                     | r => r
                                     end) ;;
                    retn (crc32.Update digest str)
               else retn digest) ;;
    if negb (N.land flg flagHdrCrc =? 0)%N
    then crc <~ readFullNoEOF 2 ;;
         if negb (le crc =? digest mod 65536)%N then failWith ErrHeader
         else retn tt
    else retn tt.

(** [Reader.Read] to the end: the members one after the other.  After
    the DEFLATE stream of a member come its checksum and size, then the
    header of the next member or the end of the source ([z.multistream]
    is on by default). *)
Fixpoint members (fuel : nat) (s : bitreader) : output * (error * nat) :=
  match fuel with
  | O => ([], (io.ErrUnexpectedEOF, last s))
  | S fuel' =>
      match run srcStop srcStopAt (S (8 * length (rest s))) NextBlock []
                (mkBR (rest s) 0 0 (last s)) with
      | (outr, inl et) => (rev outr, et)
      | (outr, inr s1) =>
          let o := rev outr in
          match readFullNoEOF 8 (alignByte s1) with
          | Fail e t => (o, (e, t))
          | Ok tr s2 =>
              let digest := le (firstn 4 tr) in
              let size := le (skipn 4 tr) in
              if negb ((digest =? crc32.ChecksumIEEE (map fst o))%N
                       && (size =? N.of_nat (length o) mod 2 ^ 32)%N)
              then (o, (ErrChecksum, last s2))
              else
                match readHeader s2 with
                | Fail e t => (o, (e, t))
                | Ok _ s3 =>
                    let r := members fuel' s3 in
                    (o ++ fst r, snd r)
                end
          end
      end
  end.

End Reader.

(** [gzip.NewReader] on the source [r]: the header of the first member is
    read right away.  Beside the reader or the error comes the place up
    to which the source has been read for that. *)
Definition NewReader (r : io.Reader) : (error + io.Reader) * nat :=
  match readHeader (io.stop r) (io.stopAt r) (mkBR (io.out r) 0 0 (io.taken r)) with
  | Fail e t => (inl e, t)
  | Ok _ s =>
      let m := members (io.stop r) (io.stopAt r) (S (length (io.out r))) s in
      (inr (io.mkReader O (fst m) (fst (snd m)) (snd (snd m))), last s)
  end.

End gzip.

(** ** Package [decompress] *)

Module decompress.

(** *** The streams *)

(** The three decoders [RoundTrip] puts into [readFrom]: a [*gzip.Reader],
    the reader of [flate.NewReader], and a [*brotli.Reader] under
    [io.NopCloser]. *)
Inductive codec : Type := Gzip | Flate | Brotli.

(** A decoder: its reader, and the error it holds on to once a [Read] has
    failed ([f.err] of the flate decompressor, which [Close] returns). *)
Record decoder : Type := mkDecoder {
  kind : codec;
  rd : io.Reader;
  err : option error
}.

(** The values of [io.ReadCloser] in the program: the body made by the
    transport (with what its [Close] returns), and the
    [cascadeReadCloser]s stacked on it.

    [type cascadeReadCloser struct { readFrom io.ReadCloser; cascade io.Closer }]:
    [readFrom] reads from the object [cascade] points to. *)
Inductive ReadCloser : Type :=
| rawBody (r : io.Reader) (cerr : option error)
| cascadeReadCloser (readFrom : decoder) (cascade : ReadCloser).

(** The reader behind a [ReadCloser].
    [func (c *cascadeReadCloser) Read(p []byte) (int, error) { return c.readFrom.Read(p) }] *)
Definition Read (c : ReadCloser) : io.Reader :=
  match c with
  | rawBody r _ => r
  | cascadeReadCloser readFrom _ => rd readFrom
  end.

(** The stack after its top has been read up to place [p]: every layer
    has pulled from the one below what it needed for that. *)
Fixpoint readTo (p : nat) (c : ReadCloser) : ReadCloser :=
  match c with
  | rawBody r cerr => rawBody (fst (io.readTo p r)) cerr
  | cascadeReadCloser d under =>
      let (r', q) := io.readTo p (rd d) in
      cascadeReadCloser (mkDecoder (kind d) r' (err d))
                        (match q with
                         | Some q' => readTo q' under
                         | None => under
                         end)
  end.

(** *** Close *)

Inductive closed : Type := closedBody | closedDecoder (k : codec).

(** [Close] of a decoder: the flate decompressor (also behind
    [gzip.Reader.Close]) returns the error it holds unless that is
    [io.EOF]; [io.NopCloser] returns [nil]. *)
Definition decoder_Close (d : decoder) (log : list closed) : option error * list closed :=
  (match kind d, err d with
   | Brotli, _ => None
   | _, Some e => if io.isEOF e then None else Some e
   | _, None => None
   end,
   log ++ [closedDecoder (kind d)]).

Section Close.

(** The two [Close] methods behind the interface values of a
    [cascadeReadCloser], acting on some world. *)
Context {World : Type}.
Variable readFrom_Close : World -> option error * World.
Variable cascade_Close : World -> option error * World.

(** [func (c *cascadeReadCloser) Close() error] *)
Definition cascadeReadCloser_Close (w : World) : option error * World :=
  let (rerr, w1) := readFrom_Close w in
  let (cerr, w2) := cascade_Close w1 in
  match rerr, cerr with
  | Some rerr, Some cerr => (Some (errorString (Error rerr ++ ": " ++ Error cerr)), w2)
  | Some rerr, None => (Some rerr, w2)
  | None, Some cerr => (Some cerr, w2)
  | None, None => (None, w2)
  end.

End Close.

(** [Close] of the values of [io.ReadCloser]; the world is the list of
    the objects closed so far. *)
Fixpoint Close (c : ReadCloser) (log : list closed) : option error * list closed :=
  match c with
  | rawBody _ cerr => (cerr, log ++ [closedBody])
  | cascadeReadCloser readFrom cascade =>
      cascadeReadCloser_Close (decoder_Close readFrom) (Close cascade) log
  end.

(** *** Requests and responses *)

Record Request : Type := mkRequest {
  Method : string;
  URL : string;
  ReqHeader : http.Header
}.

(** [http.Response], without its [Request] and [TLS] pointers. *)
Record Response : Type := mkResponse {
  Status : string;
  StatusCode : Z;
  Proto : string;
  ProtoMajor : Z;
  ProtoMinor : Z;
  Header : http.Header;
  Body : ReadCloser;
  ContentLength : Z;
  TransferEncoding : list string;
  Close_ : bool;
  Uncompressed : bool;
  Trailer : http.Header
}.

(** [http.RoundTripper]: request in, response or error out. *)
Definition http_RoundTripper : Type := Request -> Response + error.

(** [type RoundTripper struct { Wrap http.RoundTripper }] *)
Record RoundTripper : Type := mkRoundTripper {
  Wrap : option http_RoundTripper
}.

(** [type ErrUnsupportedEncoding struct { Original *http.Response; Encoding string }].
    [Original] holds the response it points to as the call leaves it. *)
Record ErrUnsupportedEncoding : Type := mkErrUnsupportedEncoding {
  Original : Response;
  Encoding : string
}.

(** [func (e *ErrUnsupportedEncoding) Error() string] *)
Definition ErrUnsupportedEncoding_Error (e : ErrUnsupportedEncoding) : string :=
  "decompress: unsuported content encoding `" ++ Encoding e ++ "`".

(** The errors [RoundTrip] returns. *)
Inductive rt_error : Type :=
| anError (e : error)
| unsupported (e : ErrUnsupportedEncoding).

(** What a call of [RoundTrip] returns: [(res, nil)], or [(nil, err)]
    together with the response of the transport, if there is one, as the
    call leaves it. *)
Inductive returned : Type :=
| ret (res : Response)
| fail (err : rt_error) (left : option Response).

(** *** RoundTrip *)

Fixpoint depth (c : ReadCloser) : nat :=
  match c with
  | rawBody _ _ => O
  | cascadeReadCloser _ c' => S (depth c')
  end.

Fixpoint under (n : nat) (c : ReadCloser) : ReadCloser :=
  match n, c with
  | S n', cascadeReadCloser _ u => under n' u
  | _, _ => c
  end.

Definition withBody (res : Response) (b : ReadCloser) : Response :=
  mkResponse (Status res) (StatusCode res) (Proto res) (ProtoMajor res) (ProtoMinor res)
             (Header res) b (ContentLength res) (TransferEncoding res) (Close_ res)
             (Uncompressed res) (Trailer res).

(** The response [res] points to while the local variable [body] holds
    the stack [b]: [res.Body] still points to the object it pointed to on
    entry, which lies under the layers put on top of it since. *)
Definition pointee (res : Response) (b : ReadCloser) : Response :=
  withBody res (under (depth b - depth (Body res)) b).

(** How the loop over the encodings ends: it runs through, or
    [gzip.NewReader] fails, or the [default] case is reached.  [body] is
    the local variable of that name. *)
Inductive looped : Type :=
| through (decompressed : bool) (body : ReadCloser)
| gzipFailed (err : error) (body : ReadCloser)
| unknown (encoding : string) (body : ReadCloser).

Section RoundTrip.

(** [brotli.NewReader] of github.com/andybalholm/brotli, on a source. *)
Variable brotli_NewReader : io.Reader -> io.Reader.

(** [http.DefaultTransport] *)
Variable http_DefaultTransport : http_RoundTripper.

(** [switch encoding { ... }]: one round of the loop, on the trimmed
    token. *)
Definition switch (encoding : string) (decompressed : bool) (body : ReadCloser) : looped :=
  if String.eqb encoding "gzip" then
    match gzip.NewReader (io.asSource (Read body)) with
    | (inl err, p) =>
        gzipFailed (wrapError ("decompress: create gzip reader: " ++ Error err) err)
                   (readTo p body)
    | (inr r, p) =>
        through true (cascadeReadCloser (mkDecoder Gzip r None) (readTo p body))
    end
  else if String.eqb encoding "deflate" then
    let r := flate.NewReader (io.asSource (Read body)) in
    through true (cascadeReadCloser (mkDecoder Flate r None) body)
  else if String.eqb encoding "br" then
    let r := brotli_NewReader (io.asSource (Read body)) in
    through true (cascadeReadCloser (mkDecoder Brotli r None) body)
  else if String.eqb encoding "identity" || String.eqb encoding "" then
    through decompressed body
  else unknown encoding body.

(** [for i := len(encodings) - 1; i >= 0; i-- { ... }], with [n = i + 1]. *)
Fixpoint loop (encodings : list string) (n : nat) (decompressed : bool) (body : ReadCloser)
  : looped :=
  match n with
  | O => through decompressed body
  | S i =>
      match switch (strings.TrimSpace (nth i encodings "")) decompressed body with
      | through decompressed' body' => loop encodings i decompressed' body'
      | stopped => stopped
      end
  end.

(** One round of the loop on the state reached so far, for the trimmed
    token [t] and for the piece [encoding] of the header value: a loop
    that has stopped stays stopped. *)
Definition round (t : string) (acc : looped) : looped :=
  match acc with
  | through d b => switch t d b
  | stopped => stopped
  end.

Definition next (encoding : string) (acc : looped) : looped :=
  round (strings.TrimSpace encoding) acc.

(** [w := r.Wrap; if w == nil { w = http.DefaultTransport }] *)
Definition transport (r : RoundTripper) : http_RoundTripper :=
  match Wrap r with
  | Some w => w
  | None => http_DefaultTransport
  end.

(** [res.Header.Get("Content-Encoding")] *)
Definition contentEncoding (res : Response) : string :=
  http.Header_Get (Header res) "Content-Encoding".

(** [func (r *RoundTripper) RoundTrip(req *http.Request)], returning a
    response and an error. *)
Definition RoundTrip (r : RoundTripper) (req : Request) : returned :=
  let w := transport r in
  match w req with
  | inr err => fail (anError err) None
  | inl res =>
      let ce := contentEncoding res in
      if (String.length ce =? 0)%nat then ret res
      else
        let encodings := strings.Split ce "," in
        match loop encodings (length encodings) false (Body res) with
        | gzipFailed err body => fail (anError err) (Some (pointee res body))
        | unknown encoding body =>
            fail (unsupported (mkErrUnsupportedEncoding (pointee res body) encoding))
                 (Some (pointee res body))
        | through decompressed body =>
            if negb decompressed then ret res
            else
              ret (mkResponse (Status res) (StatusCode res) (Proto res)
                     (ProtoMajor res) (ProtoMinor res)
                     (http.Header_Del (http.Header_Del (Header res) "Content-Encoding")
                                      "Content-Length")
                     body
                     (-1)%Z
                     (TransferEncoding res) (Close_ res)
                     true
                     (Trailer res))
        end
  end.

End RoundTrip.

End decompress.

(** ** The fixtures of [roundtripper_test.go] *)

Module test.

Import decompress.

(** [io.NopCloser(bytes.NewBuffer(body))] *)
Definition NopCloser (b : bytes) : ReadCloser :=
  rawBody (io.mkReader O (combine b (seq 1 (length b))) io.EOF (S (length b))) None.

(** [newResponse] *)
Definition newResponse (b : bytes) (contentEncoding : string) : Response :=
  let h := http.Header_Set ∅ "Content-Length" (itoa (N.of_nat (length b))) in
  let h := if (String.length contentEncoding =? 0)%nat then h
           else http.Header_Set h "Content-Encoding" contentEncoding in
  mkResponse "OK" 200 "HTTP/1.1" 1 1 h (NopCloser b) (Z.of_nat (length b)) [] false false ∅.

(** [stubRoundTripper] *)
Definition stubRoundTripper (response : Response) : http_RoundTripper :=
  fun _ => inl response.

Definition req : Request := mkRequest "GET" "/" ∅.

Definition ofN (l : list N) : bytes := map flate.byteOfN l.

(** A stand-in for [brotli.NewReader], which is not modelled: it hands
    the source through. *)
Definition brotli_id (r : io.Reader) : io.Reader := io.mkReader O (io.out r) (io.stop r) (io.stopAt r).

Definition noTransport : http_RoundTripper := fun _ => inr (errorString "no network").

(** [decompress.RoundTripper{Wrap: &stubRoundTripper{response: res}}] *)
Definition dr (res : Response) : RoundTripper :=
  mkRoundTripper (Some (stubRoundTripper res)).

Definition run (res : Response) : returned :=
  RoundTrip brotli_id noTransport (dr res) req.

(** Byte vectors for the table of the test.  A DEFLATE stream of
    "foobarbaz": a block with the fixed Huffman codes, the empty stored
    block of a flush, and the empty stored block that ends the stream. *)
Definition deflateFoobarbaz : bytes :=
  ofN [74; 203; 207; 79; 74; 44; 74; 74; 172; 2; 0; 0; 0; 255; 255; 1; 0; 0; 255; 255]%N.

(** A gzip stream of "foobarbaz": the ten header bytes, the DEFLATE
    stream above, checksum and size. *)
Definition gzipFoobarbaz : bytes :=
  ofN [31; 139; 8; 0; 0; 0; 0; 0; 0; 255;
       74; 203; 207; 79; 74; 44; 74; 74; 172; 2; 0; 0; 0; 255; 255; 1; 0; 0; 255; 255;
       170; 39; 120; 26; 9; 0; 0; 0]%N.

(** [deflateBytes(gzipBytes("foobarbaz"))], the body of the case "mixed":
    a DEFLATE stream (a stored block, flush, end) of [gzipFoobarbaz]. *)
Definition deflateOfGzip : bytes :=
  ofN [0; 38; 0; 217; 255;
       31; 139; 8; 0; 0; 0; 0; 0; 0; 255;
       74; 203; 207; 79; 74; 44; 74; 74; 172; 2; 0; 0; 0; 255; 255; 1; 0; 0; 255; 255;
       170; 39; 120; 26; 9; 0; 0; 0;
       0; 0; 0; 255; 255; 1; 0; 0; 255; 255]%N.

(** [gzipBytes(deflateBytes("foobarbaz"))]: a gzip stream whose DEFLATE
    stream (a stored block, flush, end) holds [deflateFoobarbaz]. *)
Definition gzipOfDeflate : bytes :=
  ofN [31; 139; 8; 0; 0; 0; 0; 0; 0; 255;
       0; 20; 0; 235; 255;
       74; 203; 207; 79; 74; 44; 74; 74; 172; 2; 0; 0; 0; 255; 255; 1; 0; 0; 255; 255;
       0; 0; 0; 255; 255; 1; 0; 0; 255; 255;
       249; 203; 14; 186; 20; 0; 0; 0]%N.

(** [gzipBytes([]byte{1, 2, 3})], the body of the case "unsupported
    encoding". *)
Definition gzip123 : bytes :=
  ofN [31; 139; 8; 0; 0; 0; 0; 0; 0; 255; 99; 100; 98; 6; 0; 29; 128; 188; 85; 3; 0; 0; 0]%N.

(** A response as [http.Transport] returns it after it has decoded a
    gzip body itself: no Content-Encoding, no Content-Length, the length
    unknown, the Uncompressed flag set. *)
Definition decodedByTransport : Response :=
  mkResponse "OK" 200 "HTTP/1.1" 1 1 ∅ (NopCloser (list_byte_of_string "foobarbaz"))
             (-1) [] false true ∅.

(** The rows of the table of [TestRoundTripper_RoundTrip] (and a few
    more), as the stub transport returns them. *)
Definition deflateRow : Response := newResponse deflateFoobarbaz "deflate".
Definition plainRow : Response := newResponse (list_byte_of_string "foobarbaz") "".
Definition gzipRow : Response := newResponse gzipFoobarbaz "gzip".
Definition identityRow : Response := newResponse (list_byte_of_string "foobarbaz") "identity".
Definition mixedRow : Response := newResponse deflateOfGzip "gzip, deflate".
Definition unsupportedRow : Response := newResponse gzip123 "unsupported, gzip".
Definition swappedRow : Response := newResponse gzipOfDeflate "gzip, deflate".
Definition notGzipRow : Response :=
  newResponse (list_byte_of_string "foobarbazfoobarbaz") "gzip".
Definition upperRow : Response := newResponse gzipFoobarbaz "GZIP".
Definition upperBarRow : Response := newResponse gzipFoobarbaz "GZIP, bar".
Definition fooBarRow : Response := newResponse gzipFoobarbaz "foo, bar".

(** [copyAndReadAll]: the body read to its end ([t.Error] gets the
    error, if there is one), the bytes put back as a fresh body, and the
    bytes returned.  Beside the bytes come the error reported and the
    response as the call leaves it. *)
Definition copyAndReadAll (resp : Response) : bytes * option error * Response :=
  let (b, err) := io.ReadAll (Read (Body resp)) in
  (b, err, withBody resp (NopCloser b)).

(** A body of bytes that are no DEFLATE stream, under
    [Content-Encoding: deflate]. *)
Definition garbageRow : Response := newResponse (list_byte_of_string "foobarbaz") "deflate".

(** The row "mixed" with a body whose [Close] fails. *)
Definition closeFailsRow : Response :=
  withBody mixedRow
           (rawBody (io.mkReader O (combine deflateOfGzip (seq 1 (length deflateOfGzip)))
                                 io.EOF (S (length deflateOfGzip)))
                    (Some (errorString "close failed"))).

(** The gzip reader made on the body of the row "unsupported encoding",
    and the place up to which its making reads the body. *)
Definition gzip123Reader : io.Reader :=
  match fst (gzip.NewReader (io.asSource (Read (NopCloser gzip123)))) with
  | inr z => z
  | inl _ => Read (NopCloser gzip123)
  end.
Definition gzip123Demand : nat := snd (gzip.NewReader (io.asSource (Read (NopCloser gzip123)))).

(** The response a call returned, or [res] if it returned none. *)
Definition got (res : Response) : Response :=
  match run res with
  | ret res' => res'
  | fail _ _ => res
  end.

End test.

(** * Properties *)

Import decompress.

(** ** Vocabulary of the specification *)

(** The encoding token list of a header value: split on commas, each
    token trimmed. *)
Definition tokens (ce : string) : list string :=
  map strings.TrimSpace (strings.Split ce ",").

(** The tokens the specification lists as recognized. *)
Definition recognized (t : string) : bool :=
  existsb (String.eqb t) ["gzip"; "deflate"; "br"; "identity"; ""].

(** The decoder a token stands for, if it stands for one. *)
Definition codecOf (t : string) : option codec :=
  if String.eqb t "gzip" then Some Gzip
  else if String.eqb t "deflate" then Some Flate
  else if String.eqb t "br" then Some Brotli
  else None.

(** The decoders of a token list, in its textual order. *)
Definition decoders (ts : list string) : list codec := omap codecOf ts.

(** The decoders of a stack of streams, outermost first. *)
Fixpoint kinds (c : ReadCloser) : list codec :=
  match c with
  | rawBody _ _ => []
  | cascadeReadCloser d under => kind d :: kinds under
  end.

Section Decoding.

Variable brotli_NewReader : io.Reader -> io.Reader.

(** The reader a decoder makes of a source, if it can be made. *)
Definition decode (k : codec) (src : io.Reader) : option io.Reader :=
  match k with
  | Gzip =>
      match gzip.NewReader src with
      | (inr z, _) => Some z
      | (inl _, _) => None
      end
  | Flate => Some (flate.NewReader src)
  | Brotli => Some (brotli_NewReader src)
  end.

(** The decoders [ks] applied to the reader [wire] in the reverse of
    their order in the list: the last of them reads the wire, each of
    the others reads the one after it, and the first is the reader that
    results. *)
Fixpoint decodeAll (ks : list codec) (wire : io.Reader) : option io.Reader :=
  match ks with
  | [] => Some wire
  | k :: ks' =>
      match decodeAll ks' wire with
      | Some r => decode k (io.asSource r)
      | None => None
      end
  end.

End Decoding.

(** The errors the single [Close] calls of a stack return, outermost
    layer first. *)
Fixpoint closeErrors (c : ReadCloser) : list error :=
  match c with
  | rawBody _ cerr => option_list cerr
  | cascadeReadCloser d c' => option_list (fst (decoder_Close d [])) ++ closeErrors c'
  end.

(** The messages of some errors joined by a colon and a blank. *)
Definition joined (es : list error) : option string :=
  match es with
  | [] => None
  | _ => Some (String.concat ": " (map Error es))
  end.

(** The number of commas of a header value. *)
Fixpoint commas (s : string) : nat :=
  match s with
  | EmptyString => O
  | String c s' => (if Ascii.eqb c ","%char then 1 else 0) + commas s'
  end.

(** The tokens of the [case "identity", ""] of the switch. *)
Definition noop (t : string) : bool := String.eqb t "identity" || String.eqb t "".

(** ASCII lower case of a token, to compare tokens up to letter case. *)
Definition lower (t : string) : string :=
  string_of_list_ascii
    (map (fun c => if textproto.isUpper c
                   then ascii_of_N (N_of_ascii c + textproto.toLower) else c)
         (list_ascii_of_string t)).

(** A token that is a supported name but for the case of its letters. *)
Definition caseVariant (t : string) : bool :=
  negb (recognized t) && existsb (String.eqb (lower t)) ["gzip"; "deflate"; "br"; "identity"].

Definition foobarbaz : bytes := list_byte_of_string "foobarbaz".

Fixpoint bytes_eqb (a b : bytes) : bool :=
  match a, b with
  | [], [] => true
  | x :: a', y :: b' => Byte.eqb x y && bytes_eqb a' b'
  | _, _ => false
  end.

(** The body is a gzip stream of the plaintext [p]: the gzip reader on it
    is made and reads [p] to a regular end. *)
Definition gzipOf (p : bytes) (src : io.Reader) : Prop :=
  exists z k, gzip.NewReader src = (inr z, k) /\ io.ReadAll z = (p, None).

Definition gzipOfb (p : bytes) (src : io.Reader) : bool :=
  match gzip.NewReader src with
  | (inr z, _) =>
      match io.ReadAll z with
      | (q, None) => bytes_eqb q p
      | _ => false
      end
  | _ => false
  end.

(** The error a call returned as ErrUnsupportedEncoding, if it did. *)
Definition carried (x : returned) : option ErrUnsupportedEncoding :=
  match x with
  | fail (unsupported u) _ => Some u
  | _ => None
  end.

(** The rows of the table that decode, as the test reads them: body,
    flag, declared length, the two headers. *)
Definition observe (res : Response) : bytes * option error * bool * Z * string * string :=
  (io.ReadAll (Read (Body res)), Uncompressed res, ContentLength res,
   http.Header_Get (Header res) "Content-Encoding",
   http.Header_Get (Header res) "Content-Length").

(** The reader has read its source at least up to place [m], and what
    it has still to read lies beyond. *)
Definition ahead (m : nat) (s : flate.bitreader) : Prop :=
  m <= flate.last s /\ Forall (fun bt => m <= snd bt) (flate.rest s).

(** A step of a reader does not go back behind place [m]. *)
Definition keeps (m : nat) {A : Type} (f : flate.bitreader -> flate.res A) : Prop :=
  forall s a s', ahead m s -> f s = flate.Ok a s' -> ahead m s'.

(** The metadata of a response [RoundTrip] may rewrite. *)
Definition sameMeta (a b : Response) : Prop :=
  Header a = Header b /\ ContentLength a = ContentLength b /\
  Uncompressed a = Uncompressed b.

(** Everything of a response but its header map, length, flag and body. *)
Definition sameFrame (a b : Response) : Prop :=
  Status a = Status b /\ StatusCode a = StatusCode b /\ Proto a = Proto b /\
  ProtoMajor a = ProtoMajor b /\ ProtoMinor a = ProtoMinor b /\
  TransferEncoding a = TransferEncoding b /\ Close_ a = Close_ b /\
  Trailer a = Trailer b.

Lemma bytes_eqb_eq (a b : bytes) : bytes_eqb a b = true -> a = b.
Proof.
  revert b. induction a as [|x a IH]; intros [|y b] H; try reflexivity; try discriminate.
  simpl in H. apply andb_prop in H as [H1 H2].
  apply Byte.byte_dec_bl in H1. f_equal; [assumption | now apply IH].
Qed.

Lemma gzipOfb_gzipOf (p : bytes) (src : io.Reader) : gzipOfb p src = true -> gzipOf p src.
Proof.
  unfold gzipOfb, gzipOf. destruct (gzip.NewReader src) as [[e|z] k]; [discriminate|].
  destruct (io.ReadAll z) as [q [e|]] eqn:E; [discriminate|].
  intros H. apply bytes_eqb_eq in H as ->. now exists z, k.
Qed.

(** ** The decoders and the magic bytes of gzip *)

(** The DEFLATE decoder on a source that starts with the first magic
    byte of gzip fails at once: the block type it reads there is the
    reserved one. *)
Lemma flate_rejects_gzip_magic (r : io.Reader) (t : nat) (tl : list (Byte.byte * nat)) :
  io.out r = (Byte.x1f, t) :: tl ->
  flate.NewReader r = io.mkReader 0 [] (CorruptInputError 1) t.
Proof.
  intros H. unfold flate.NewReader, flate.inflate. rewrite H.
  cbn [length Nat.mul]. cbv - [Nat.mul Nat.add length]. reflexivity.
Qed.

(** A source on which the gzip reader can be made starts with the first
    magic byte of gzip. *)
Lemma gzip_stream_magic (src z : io.Reader) (k : nat) :
  gzip.NewReader src = (inr z, k) ->
  exists t tl, io.out src = (Byte.x1f, t) :: tl.
Proof.
  unfold gzip.NewReader, gzip.readHeader, flate.bind, gzip.ReadFull.
  cbn [flate.rest].
  destruct (10 <=? length (io.out src))%nat eqn:Hlen; [|discriminate].
  destruct (io.out src) as [|[b t] tl]; [discriminate|].
  intros H. exists t, tl. f_equal. f_equal.
  cbn [firstn map nth fst] in H.
  destruct (Byte.to_N b =? gzip.gzipID1)%N eqn:Hb.
  - apply N.eqb_eq in Hb. pose proof (Byte.of_to_N b) as E.
    rewrite Hb in E. vm_compute in E. now injection E.
  - cbn [andb negb] in H. discriminate.
Qed.

(** ** What [gzip.NewReader] reads of its source *)

Section Demand.

Variable srcStop : error.
Variable srcStopAt : nat.
Variable m : nat.

Lemma keeps_retn {A : Type} (a : A) : keeps m (flate.retn a).
Proof. intros s ? s' H E. injection E as _ <-. exact H. Qed.

Lemma keeps_failWith {A : Type} (e : error) : keeps m (@gzip.failWith A e).
Proof. intros s ? s' _ E. discriminate. Qed.

Lemma keeps_bind {A B : Type} (f : flate.bitreader -> flate.res A)
      (k : A -> flate.bitreader -> flate.res B) :
  keeps m f -> (forall a, keeps m (k a)) -> keeps m (flate.bind f k).
Proof.
  intros Hf Hk s b s' H E. unfold flate.bind in E.
  destruct (f s) as [a s1|] eqn:E1; [|discriminate].
  exact (Hk a s1 b s' (Hf s a s1 H E1) E).
Qed.

Lemma last_ge (l : list nat) (d : nat) :
  m <= d -> Forall (fun t => m <= t) l -> m <= List.last l d.
Proof.
  intros Hd Hl. induction Hl as [|t l Ht Hl IH]; [exact Hd|].
  destruct l as [|t' l]; [exact Ht | exact IH].
Qed.

Lemma keeps_ReadFull (n : nat) : keeps m (gzip.ReadFull srcStop srcStopAt n).
Proof.
  intros s a s' [Hl Hr] E. unfold gzip.ReadFull in E.
  destruct (n <=? length (flate.rest s))%nat; [|discriminate].
  injection E as _ <-. split; cbn [flate.last flate.rest].
  - apply last_ge; [exact Hl|]. apply List.Forall_map. now apply Forall_take.
  - now apply Forall_drop.
Qed.

Lemma keeps_readFullNoEOF (n : nat) : keeps m (gzip.readFullNoEOF srcStop srcStopAt n).
Proof.
  intros s a s' H E. unfold gzip.readFullNoEOF in E.
  destruct (gzip.ReadFull srcStop srcStopAt n s) as [a1 s1|] eqn:E1; [|discriminate].
  injection E as <- <-. exact (keeps_ReadFull n s a1 s1 H E1).
Qed.

Lemma keeps_readString (room : nat) (acc : bytes) :
  keeps m (gzip.readString srcStop srcStopAt room acc).
Proof.
  revert acc. induction room as [|room IH]; intros acc; [apply keeps_failWith|].
  cbn [gzip.readString]. apply keeps_bind; [apply keeps_ReadFull|].
  intros [|c [|c' b]]; try apply keeps_failWith.
  destruct (Byte.to_N c =? 0)%N; [apply keeps_retn | apply IH].
Qed.

Lemma keeps_noEOF {A : Type} (f : flate.bitreader -> flate.res A) :
  keeps m f ->
  keeps m (fun s => match f s with
                    | flate.Fail e t => flate.Fail (io.noEOF e) t
                    | r => r
                    end).
Proof.
  intros Hf s a s' H E. destruct (f s) as [a1 s1|] eqn:E1; [|discriminate].
  injection E as <- <-. exact (Hf s a1 s1 H E1).
Qed.

Ltac keeps_steps :=
  repeat first
    [ apply keeps_retn
    | apply keeps_failWith
    | apply keeps_readFullNoEOF
    | apply keeps_ReadFull
    | apply keeps_noEOF; apply keeps_readString
    | apply keeps_bind; [|intros ?]
    | match goal with
      | |- keeps _ (if ?c then _ else _) => destruct c
      end ].

(** Once the ten fixed bytes of the header are read, the rest of
    [readHeader] does not go back behind them. *)
Lemma readHeader_keeps (s0 s1 s : flate.bitreader) (buf : bytes) (u : unit) :
  gzip.ReadFull srcStop srcStopAt 10 s0 = flate.Ok buf s1 ->
  ahead m s1 ->
  gzip.readHeader srcStop srcStopAt s0 = flate.Ok u s ->
  ahead m s.
Proof.
  intros H1 Ha E. unfold gzip.readHeader in E. unfold flate.bind at 1 in E.
  rewrite H1 in E. cbv beta iota in E.
  match type of E with
  | ?F s1 = _ => assert (K : keeps m F) by keeps_steps
  end.
  exact (K s1 u s Ha E).
Qed.

End Demand.

Lemma combine_seq_ge {A : Type} (xs : list A) (b c n : nat) :
  b <= c -> Forall (fun bt => b <= snd bt) (combine xs (seq c n)).
Proof.
  revert c n. induction xs as [|x xs IH]; intros c n Hc; [constructor|].
  destruct n as [|n]; [constructor|]. simpl. constructor; [exact Hc|].
  apply IH. lia.
Qed.

Lemma tags_skipn {A : Type} (n : nat) (xs : list A) (a : nat) :
  Forall (fun bt => a + n <= snd bt) (skipn n (combine xs (seq (S a) (length xs)))).
Proof.
  revert xs a. induction n as [|n IH]; intros xs a.
  - apply combine_seq_ge. lia.
  - destruct xs as [|x xs]; [constructor|]. simpl.
    replace (a + S n) with (S a + n) by lia. apply IH.
Qed.

Lemma tags_firstn {A : Type} (n : nat) (xs : list A) (a d : nat) :
  0 < n -> n <= length xs ->
  List.last (map snd (firstn n (combine xs (seq (S a) (length xs))))) d = a + n.
Proof.
  revert xs a d. induction n as [|n IH]; intros xs a d Hn Hl; [lia|].
  destruct xs as [|x xs]; [simpl in Hl; lia|]. simpl in Hl.
  cbn [length seq combine firstn map snd].
  destruct n as [|n].
  - simpl. lia.
  - destruct xs as [|x' xs]; [simpl in Hl; lia|].
    transitivity (List.last (map snd (firstn (S n)
                    (combine (x' :: xs) (seq (S (S a)) (length (x' :: xs)))))) d);
      [reflexivity|].
    rewrite IH by (simpl in *; lia). lia.
Qed.

(** [gzip.NewReader] that succeeds has read at least the ten fixed
    bytes of the header from its source. *)
Lemma gzip_NewReader_demand (r0 z : io.Reader) (k : nat) :
  gzip.NewReader (io.asSource r0) = (inr z, k) ->
  10 <= length (io.out r0) /\ io.taken r0 + 10 <= k.
Proof.
  unfold gzip.NewReader. cbn [io.asSource io.stop io.stopAt io.out io.taken].
  set (l := combine (map fst (io.out r0)) (seq (S (io.taken r0)) (length (io.out r0)))).
  set (s0 := flate.mkBR l 0 0 (io.taken r0)).
  match goal with
  | |- context [gzip.readHeader ?a ?b ?c] =>
      destruct (gzip.readHeader a b c) as [u s|] eqn:E; [|discriminate]
  end.
  intros H. apply (f_equal snd) in H.
  cbv beta iota delta [snd] in H. subst k.
  assert (Hl : length l = length (io.out r0)).
  { unfold l. rewrite length_combine, length_map, length_seq. lia. }
  pose proof E as E'. unfold gzip.readHeader in E'. unfold flate.bind at 1 in E'.
  match type of E' with
  | context [gzip.ReadFull ?a ?b ?c ?d] =>
      destruct (gzip.ReadFull a b c d) as [buf s1|] eqn:E1; [|discriminate]
  end. clear E'.
  pose proof E1 as E2. unfold gzip.ReadFull in E2. cbn [flate.rest flate.last flate.nbits s0] in E2.
  destruct (10 <=? length l)%nat eqn:H10; [|discriminate].
  apply Nat.leb_le in H10. split; [lia|].
  assert (Ha : ahead (io.taken r0 + 10) s1).
  { injection E2 as _ <-. split; cbn [flate.last flate.rest].
    - unfold l. rewrite <- (length_map fst (io.out r0)).
      rewrite tags_firstn; [lia | lia | rewrite length_map; lia].
    - unfold l. rewrite <- (length_map fst (io.out r0)). apply tags_skipn. }
  exact (proj1 (readHeader_keeps _ _ _ _ _ _ _ _ E1 Ha E)).
Qed.

(** ** The loop over the encodings *)

Section Loop.

Variable brotli_NewReader : io.Reader -> io.Reader.

Local Abbreviation round := (decompress.round brotli_NewReader).
Local Abbreviation next := (decompress.next brotli_NewReader).

Lemma loop_prefix (l l' : list string) (n : nat) (d : bool) (b : ReadCloser) :
  n <= length l ->
  loop brotli_NewReader (l ++ l') n d b = loop brotli_NewReader l n d b.
Proof.
  revert d b. induction n as [|i IH]; intros d b Hn; [reflexivity|].
  simpl. rewrite app_nth1 by lia.
  destruct (switch _ _ d b); try reflexivity.
  apply IH. lia.
Qed.

Lemma loop_snoc (l : list string) (e : string) (d : bool) (b : ReadCloser) :
  loop brotli_NewReader (l ++ [e]) (length (l ++ [e])) d b
  = match next e (through d b) with
    | through d' b' => loop brotli_NewReader l (length l) d' b'
    | stopped => stopped
    end.
Proof.
  rewrite length_app. simpl. replace (length l + 1) with (S (length l)) by lia.
  simpl. rewrite app_nth2 by lia. replace (length l - length l) with 0 by lia.
  simpl. destruct (switch _ _ d b); try reflexivity.
  apply loop_prefix. lia.
Qed.

Lemma fold_round_stopped (ts : list string) (s : looped) :
  (forall d b, s <> through d b) -> fold_right round s ts = s.
Proof.
  intros Hs. induction ts as [|t ts IH]; [reflexivity|].
  simpl. rewrite IH. destruct s; try reflexivity. exfalso. eapply Hs. reflexivity.
Qed.

Lemma fold_next_round (l : list string) (s : looped) :
  fold_right next s l = fold_right round s (map strings.TrimSpace l).
Proof.
  induction l as [|e l IH]; [reflexivity|]. simpl. now rewrite IH.
Qed.

(** The loop is the right fold of its rounds: the last token is handled
    first, on the body of the response, the first token last. *)
Lemma loop_fold_right (l : list string) (d : bool) (b : ReadCloser) :
  loop brotli_NewReader l (length l) d b = fold_right next (through d b) l.
Proof.
  revert d b. induction l as [|e l IH] using rev_ind; intros d b; [reflexivity|].
  rewrite loop_snoc, fold_right_app.
  change (fold_right next (through d b) [e]) with (next e (through d b)).
  destruct (next e (through d b)) eqn:E.
  - apply IH.
  - symmetry. rewrite fold_next_round. apply fold_round_stopped. discriminate.
  - symmetry. rewrite fold_next_round. apply fold_round_stopped. discriminate.
Qed.

Lemma kinds_readTo (c : ReadCloser) (p : nat) : kinds (readTo p c) = kinds c.
Proof.
  revert p. induction c as [r cerr | d c IH]; intros p; [reflexivity|].
  simpl. destruct (io.readTo p (rd d)) as [r' [q|]]; simpl; [now rewrite IH | reflexivity].
Qed.

Lemma recognized_codecOf (t : string) (k : codec) : codecOf t = Some k -> recognized t = true.
Proof.
  unfold codecOf, recognized. simpl.
  destruct (String.eqb t "gzip"); [reflexivity|].
  destruct (String.eqb t "deflate"); [reflexivity|].
  destruct (String.eqb t "br"); [reflexivity|]. discriminate.
Qed.

(** A token that is not recognized ends the loop in the [default] case,
    with the body as it stands. *)
Lemma switch_unrecognized (t : string) (d : bool) (b : ReadCloser) :
  recognized t = false -> switch brotli_NewReader t d b = unknown t b.
Proof.
  unfold recognized, switch. simpl. intros H.
  destruct (String.eqb t "gzip"); [discriminate|].
  destruct (String.eqb t "deflate"); [discriminate|].
  destruct (String.eqb t "br"); [discriminate|].
  destruct (String.eqb t "identity"); [discriminate|].
  destruct (String.eqb t ""); [discriminate|]. reflexivity.
Qed.

(** A recognized token either lets the loop go on, with its decoder put
    on the stack if it has one, or is [gzip] with a reader that cannot
    be made. *)
Lemma switch_recognized (t : string) (d : bool) (b : ReadCloser) :
  recognized t = true ->
  (exists d' b', switch brotli_NewReader t d b = through d' b'
                 /\ kinds b' = decoders [t] ++ kinds b
                 /\ d' = (d || negb (Nat.eqb (length (decoders [t])) 0))
                 /\ (decoders [t] = [] -> b' = b))
  \/ (exists cause p, t = "gzip"
                      /\ gzip.NewReader (io.asSource (Read b)) = (inl cause, p)
                      /\ switch brotli_NewReader t d b
                         = gzipFailed (wrapError ("decompress: create gzip reader: "
                                                  ++ Error cause) cause)
                                      (readTo p b)).
Proof.
  unfold recognized, switch, decoders, codecOf. simpl. intros H.
  destruct (String.eqb_spec t "gzip") as [->|_].
  { destruct (gzip.NewReader _) as [[cause|z] p].
    - right. exists cause, p. repeat split; reflexivity.
    - left. eexists _, _. split; [reflexivity|]. simpl. rewrite kinds_readTo.
      repeat split; [now rewrite orb_true_r | discriminate]. }
  destruct (String.eqb_spec t "deflate") as [->|_].
  { left. eexists _, _. split; [reflexivity|]. simpl.
    repeat split; [now rewrite orb_true_r | discriminate]. }
  destruct (String.eqb_spec t "br") as [->|_].
  { left. eexists _, _. split; [reflexivity|]. simpl.
    repeat split; [now rewrite orb_true_r | discriminate]. }
  simpl in H. rewrite orb_false_r in H. rewrite H. left. exists d, b. simpl.
  repeat split. now rewrite orb_false_r.
Qed.

(** A round that lets the loop go on leaves on top of the stack the
    reader the decoder of the token makes of the former top, or the
    former top if the token has no decoder. *)
Lemma switch_through_reads (t : string) (d d' : bool) (b b' : ReadCloser) :
  switch brotli_NewReader t d b = through d' b' ->
  decodeAll brotli_NewReader (decoders [t]) (Read b) = Some (Read b').
Proof.
  unfold switch, decoders, codecOf. simpl.
  destruct (String.eqb t "gzip").
  { destruct (gzip.NewReader _) as [[cause|z] p] eqn:E; [discriminate|].
    intros H. injection H as _ <-. simpl. now rewrite E. }
  destruct (String.eqb t "deflate"); [intros H; injection H as _ <-; reflexivity|].
  destruct (String.eqb t "br"); [intros H; injection H as _ <-; reflexivity|].
  destruct (String.eqb t "identity" || String.eqb t ""); [|discriminate].
  intros H. injection H as _ <-. reflexivity.
Qed.

Lemma decodeAll_app (ks1 ks2 : list codec) (wire : io.Reader) :
  decodeAll brotli_NewReader (ks1 ++ ks2) wire
  = match decodeAll brotli_NewReader ks2 wire with
    | Some r => decodeAll brotli_NewReader ks1 r
    | None => None
    end.
Proof.
  induction ks1 as [|k ks1 IH]; simpl.
  - now destruct (decodeAll _ ks2 wire).
  - rewrite IH. now destruct (decodeAll _ ks2 wire).
Qed.

Lemma decoders_cons (t : string) (ts : list string) :
  decoders (t :: ts) = decoders [t] ++ decoders ts.
Proof. unfold decoders. simpl. destruct (codecOf t); reflexivity. Qed.

(** When the rounds run through, every token was recognized, the stack
    has grown by the decoders of the tokens, in their textual order from
    the top, and its top reads what these decoders make of the former
    top, the rightmost decoder first. *)
Lemma fold_through (ts : list string) (d d' : bool) (b b' : ReadCloser) :
  fold_right round (through d b) ts = through d' b' ->
  Forall (fun t => recognized t = true) ts
  /\ kinds b' = decoders ts ++ kinds b
  /\ d' = (d || negb (Nat.eqb (length (decoders ts)) 0))
  /\ (decoders ts = [] -> b' = b)
  /\ decodeAll brotli_NewReader (decoders ts) (Read b) = Some (Read b').
Proof.
  revert d' b'. induction ts as [|t ts IH]; intros d' b' H.
  - simpl in H. injection H as <- <-.
    repeat split; [constructor | now rewrite orb_false_r].
  - simpl in H. destruct (fold_right round (through d b) ts) as [d1 b1| |] eqn:E;
      try discriminate.
    destruct (IH _ _ eq_refl) as (Hrec & Hk & Hd & Hb & Hr).
    simpl in H. destruct (recognized t) eqn:Ht.
    + pose proof (switch_through_reads t d1 d' b1 b') as Hread.
      destruct (switch_recognized t d1 b1 Ht) as [(d2 & b2 & Hs & Hk2 & Hd2 & Hb2)|(c & p & _ & _ & Hs)];
        rewrite Hs in H; [|discriminate].
      injection H as <- <-. rewrite decoders_cons.
      split; [constructor; assumption|].
      split; [rewrite Hk2, Hk; now rewrite app_assoc|].
      split; [|split].
      * rewrite Hd2, Hd, length_app.
        generalize (length (decoders [t])) (length (decoders ts)).
        intros [|n] [|m]; destruct d; reflexivity.
      * intros Hnil. apply app_eq_nil in Hnil as [H1 H2]. rewrite (Hb2 H1). now apply Hb.
      * rewrite decodeAll_app, Hr. now apply Hread.
    + rewrite switch_unrecognized in H by assumption. discriminate.
Qed.

(** When the rounds end in the [default] case, the token is the
    rightmost one that is not recognized, and the rounds of the tokens
    to its right ran through. *)
Lemma fold_unknown (ts : list string) (d : bool) (b b' : ReadCloser) (t : string) :
  fold_right round (through d b) ts = unknown t b' ->
  exists l1 l2 d2, ts = l1 ++ t :: l2 /\ recognized t = false
                   /\ Forall (fun t => recognized t = true) l2
                   /\ fold_right round (through d b) l2 = through d2 b'.
Proof.
  induction ts as [|t0 ts IH]; intros H; [discriminate|].
  simpl in H. destruct (fold_right round (through d b) ts) as [d1 b1| |e b1] eqn:E.
  - simpl in H. destruct (recognized t0) eqn:Ht.
    + destruct (switch_recognized t0 d1 b1 Ht) as [(d2 & b2 & Hs & _)|(c & p & _ & _ & Hs)];
        rewrite Hs in H; discriminate.
    + rewrite switch_unrecognized in H by assumption. injection H as <- <-.
      exists [], ts, d1. repeat split; try assumption.
      now destruct (fold_through _ _ _ _ _ E) as (? & _).
  - discriminate.
  - simpl in H. injection H as -> ->.
    destruct (IH eq_refl) as (l1 & l2 & d2 & -> & Hr & Hf & Hl).
    exists (t0 :: l1), l2, d2. repeat split; assumption.
Qed.

(** When the rounds end with a failure, it is the error of
    [gzip.NewReader] on some source, wrapped. *)
Lemma fold_gzipFailed (ts : list string) (d : bool) (b b' : ReadCloser) (e : error) :
  fold_right round (through d b) ts = gzipFailed e b' ->
  exists cause src p, gzip.NewReader src = (inl cause, p)
                      /\ e = wrapError ("decompress: create gzip reader: " ++ Error cause) cause.
Proof.
  induction ts as [|t0 ts IH]; intros H; [discriminate|].
  simpl in H. destruct (fold_right round (through d b) ts) as [d1 b1|e1 b1|] eqn:E.
  - simpl in H. destruct (recognized t0) eqn:Ht.
    + destruct (switch_recognized t0 d1 b1 Ht) as [(d2 & b2 & Hs & _)|(c & p & _ & Hg & Hs)];
        rewrite Hs in H; [discriminate|].
      injection H as <- <-. now exists c, (io.asSource (Read b1)), p.
    + rewrite switch_unrecognized in H by assumption. discriminate.
  - simpl in H. injection H as -> ->. now apply IH.
  - discriminate.
Qed.

(** Recognized tokens never reach the [default] case. *)
Lemma fold_recognized (ts : list string) (d : bool) (b b' : ReadCloser) (t : string) :
  Forall (fun t => recognized t = true) ts ->
  fold_right round (through d b) ts <> unknown t b'.
Proof.
  intros Hf H. destruct (fold_unknown _ _ _ _ _ H) as (l1 & l2 & d2 & -> & Hr & _).
  apply Forall_app in Hf as [_ Hf]. inversion Hf; congruence.
Qed.

(** Recognized tokens without [gzip] among them run through. *)
Lemma fold_no_gzip (ts : list string) (d : bool) (b : ReadCloser) :
  Forall (fun t => recognized t = true /\ t <> "gzip") ts ->
  exists d' b', fold_right round (through d b) ts = through d' b'.
Proof.
  induction ts as [|t ts IH]; intros Hf; [now exists d, b|].
  inversion Hf as [|? ? [Ht Hg] Hf']; subst.
  destruct (IH Hf') as (d1 & b1 & E). simpl. rewrite E. simpl.
  destruct (switch_recognized t d1 b1 Ht) as [(d2 & b2 & Hs & _)|(c & p & Hc & _)];
    [now exists d2, b2 | contradiction].
Qed.

(** Without [gzip] among the tokens nothing is read while the stack is
    built: under the new layers lies the body as it was. *)
Lemma fold_no_gzip_untouched (ts : list string) (d : bool) (b : ReadCloser) :
  Forall (fun t => recognized t = true /\ t <> "gzip") ts ->
  exists d' b', fold_right round (through d b) ts = through d' b'
                /\ depth b' = (length (decoders ts) + depth b)%nat
                /\ under (length (decoders ts)) b' = b.
Proof.
  induction ts as [|t ts IH]; intros Hf; [now exists d, b|].
  inversion Hf as [|? ? [Ht Hg] Hf']; subst.
  destruct (IH Hf') as (d1 & b1 & E & Hd & Hu).
  cbn [fold_right]. rewrite E. cbn [decompress.round]. rewrite decoders_cons.
  change (decoders [t]) with (match codecOf t with Some k => [k] | None => [] end).
  unfold recognized in Ht. cbn [existsb] in Ht. unfold switch, codecOf.
  destruct (String.eqb_spec t "gzip") as [->|_]; [contradiction|].
  destruct (String.eqb t "deflate");
    [eexists _, _; split; [reflexivity|]; simpl; now rewrite Hd, Hu|].
  destruct (String.eqb t "br");
    [eexists _, _; split; [reflexivity|]; simpl; now rewrite Hd, Hu|].
  cbn [orb] in Ht. rewrite orb_false_r in Ht. rewrite Ht.
  exists d1, b1. simpl. auto.
Qed.

End Loop.

(** ** RoundTrip *)

Section Claims.

Variable brotli_NewReader : io.Reader -> io.Reader.
Variable http_DefaultTransport : http_RoundTripper.

Local Abbreviation transport := (decompress.transport http_DefaultTransport).
Local Abbreviation RoundTrip := (decompress.RoundTrip brotli_NewReader http_DefaultTransport).
Local Abbreviation rounds := (fold_right (round brotli_NewReader)).

(** [RoundTrip] on a response of the transport, with the loop as the
    fold of its rounds over the token list. *)
Lemma RoundTrip_rounds (r : RoundTripper) (req : Request) (res : Response) :
  transport r req = inl res ->
  RoundTrip r req =
  if (String.length (contentEncoding res) =? 0)%nat then ret res
  else
    match rounds (through false (Body res)) (tokens (contentEncoding res)) with
    | gzipFailed err body => fail (anError err) (Some (pointee res body))
    | unknown encoding body =>
        fail (unsupported (mkErrUnsupportedEncoding (pointee res body) encoding))
             (Some (pointee res body))
    | through decompressed body =>
        if negb decompressed then ret res
        else
          ret (mkResponse (Status res) (StatusCode res) (Proto res)
                 (ProtoMajor res) (ProtoMinor res)
                 (http.Header_Del (http.Header_Del (Header res) "Content-Encoding")
                                  "Content-Length")
                 body (-1)%Z (TransferEncoding res) (Close_ res) true (Trailer res))
    end.
Proof.
  intros H. unfold decompress.RoundTrip. cbv zeta.
  rewrite H. rewrite loop_fold_right, fold_next_round. reflexivity.
Qed.

Lemma decoders_identity (ts : list string) :
  Forall (fun t => t = "identity" \/ t = "") ts ->
  decoders ts = [] /\ Forall (fun t => recognized t = true /\ t <> "gzip") ts.
Proof.
  induction 1 as [|t ts [-> | ->] _ [IH1 IH2]]; [split; [reflexivity | constructor]| |].
  - split; [| constructor; [split; [reflexivity | discriminate] | assumption]].
    rewrite decoders_cons, IH1. reflexivity.
  - split; [| constructor; [split; [reflexivity | discriminate] | assumption]].
    rewrite decoders_cons, IH1. reflexivity.
Qed.

(** C6, as amended.  For every response whose Content-Encoding header is
    absent or empty, or whose tokens are all [identity] or empty
    strings, RoundTrip returns the response of the transport as it is:
    the body and its bytes, the Uncompressed flag, the declared length
    and the header fields are those of the input. *)
Theorem C6_no_decoder_returns_input (r : RoundTripper) (req : Request) (res : Response) :
  transport r req = inl res ->
  contentEncoding res = ""
  \/ Forall (fun t => t = "identity" \/ t = "") (tokens (contentEncoding res)) ->
  RoundTrip r req = ret res.
Proof.
  intros Hres H. rewrite (RoundTrip_rounds _ _ _ Hres).
  destruct (String.length (contentEncoding res) =? 0)%nat eqn:Hlen; [reflexivity|].
  destruct H as [H | H]; [rewrite H in Hlen; discriminate|].
  destruct (decoders_identity _ H) as [Hdec Hrec].
  destruct (fold_no_gzip brotli_NewReader _ false (Body res) Hrec) as (d' & b' & E).
  rewrite E. destruct (fold_through _ _ _ _ _ _ E) as (_ & _ & -> & _).
  rewrite Hdec. reflexivity.
Qed.

Lemma canonical_CE : textproto.CanonicalMIMEHeaderKey "Content-Encoding" = "Content-Encoding".
Proof. reflexivity. Qed.

Lemma canonical_CL : textproto.CanonicalMIMEHeaderKey "Content-Length" = "Content-Length".
Proof. reflexivity. Qed.

Lemma tokens_empty (ce : string) : String.length ce = 0%nat -> tokens ce = [""].
Proof. destruct ce; [reflexivity | discriminate]. Qed.

(** What the successful decode leaves of the header map: the two keys
    are gone, every other key is as before. *)
Lemma Header_Del_both (h : http.Header) :
  let h' := http.Header_Del (http.Header_Del h "Content-Encoding") "Content-Length" in
  h' !! "Content-Encoding" = None /\ h' !! "Content-Length" = None
  /\ (forall k : string, k <> "Content-Encoding" -> k <> "Content-Length" -> h' !! k = h !! k).
Proof.
  unfold http.Header_Del. rewrite canonical_CE, canonical_CL. simpl.
  split; [|split].
  - rewrite lookup_delete_ne by discriminate. apply lookup_delete_eq.
  - apply lookup_delete_eq.
  - intros k H1 H2. rewrite lookup_delete_ne by congruence.
    apply lookup_delete_ne. congruence.
Qed.

Lemma Header_Get_None (h : http.Header) (key : string) :
  h !! textproto.CanonicalMIMEHeaderKey key = None -> http.Header_Get h key = "".
Proof. unfold http.Header_Get. now intros ->. Qed.

(** C1.  The decoders are applied in the reverse of the textual order of
    the token list.  The loop is the right fold of its rounds over the
    pieces of the header value, so the last piece is handled first, on
    the body the transport made.  On the body of the response RoundTrip
    returns, the decoders of the tokens lie in the textual order of the
    tokens from the outermost layer inwards, on top of the body of the
    transport: the decoder of the rightmost token is the innermost
    layer, that of the leftmost token the outermost.  And what that body
    reads is what the decoders make of the body of the transport when
    the rightmost decoder reads the wire and every other decoder reads
    its right neighbour. *)
Theorem C1_decoders_in_reverse_order (r : RoundTripper) (req : Request) (res res' : Response) :
  transport r req = inl res ->
  RoundTrip r req = ret res' ->
  let encodings := strings.Split (contentEncoding res) "," in
  loop brotli_NewReader encodings (length encodings) false (Body res)
  = fold_right (next brotli_NewReader) (through false (Body res)) encodings
  /\ kinds (Body res') = decoders (tokens (contentEncoding res)) ++ kinds (Body res)
  /\ decodeAll brotli_NewReader (decoders (tokens (contentEncoding res))) (Read (Body res))
     = Some (Read (Body res')).
Proof.
  intros Hres H encodings. split; [apply loop_fold_right|].
  rewrite (RoundTrip_rounds _ _ _ Hres) in H.
  destruct (String.length (contentEncoding res) =? 0)%nat eqn:Hlen.
  { injection H as <-. apply Nat.eqb_eq in Hlen. rewrite (tokens_empty _ Hlen). now split. }
  destruct (rounds _ _) as [d b| |] eqn:E; try discriminate.
  destruct (fold_through _ _ _ _ _ _ E) as (_ & Hk & Hd & Hb & Hr).
  destruct d; simpl in H; injection H as <-; [now split|].
  simpl in Hd. destruct (decoders (tokens (contentEncoding res))); [now split | discriminate].
Qed.

Lemma switch_gzip (d : bool) (b : ReadCloser) :
  switch brotli_NewReader "gzip" d b
  = match gzip.NewReader (io.asSource (Read b)) with
    | (inl err, p) =>
        gzipFailed (wrapError ("decompress: create gzip reader: " ++ Error err) err)
                   (readTo p b)
    | (inr z, p) => through true (cascadeReadCloser (mkDecoder Gzip z None) (readTo p b))
    end.
Proof. reflexivity. Qed.

Lemma switch_deflate (d : bool) (b : ReadCloser) :
  switch brotli_NewReader "deflate" d b
  = through true (cascadeReadCloser
                    (mkDecoder Flate (flate.NewReader (io.asSource (Read b))) None) b).
Proof. reflexivity. Qed.

(** C3.  For every response whose body is a gzip stream of a plaintext
    and whose Content-Encoding header is exactly [gzip], RoundTrip
    succeeds; the body of the response it returns reads the plaintext to
    a regular end, the Content-Encoding and Content-Length headers are
    absent, the declared length is -1 and the Uncompressed flag is
    set. *)
Theorem C3_gzip_decoded (r : RoundTripper) (req : Request) (res : Response) (p : bytes) :
  transport r req = inl res ->
  contentEncoding res = "gzip" ->
  gzipOf p (io.asSource (Read (Body res))) ->
  exists res',
    RoundTrip r req = ret res'
    /\ io.ReadAll (Read (Body res')) = (p, None)
    /\ Header res' !! "Content-Encoding" = None
    /\ Header res' !! "Content-Length" = None
    /\ http.Header_Get (Header res') "Content-Encoding" = ""
    /\ http.Header_Get (Header res') "Content-Length" = ""
    /\ ContentLength res' = (-1)%Z
    /\ Uncompressed res' = true.
Proof.
  intros Hres Hce (z & k & Hz & Hp).
  rewrite (RoundTrip_rounds _ _ _ Hres), Hce.
  change (tokens "gzip") with ["gzip"]. cbn [fold_right round String.length Nat.eqb].
  rewrite switch_gzip, Hz. cbn [negb].
  eexists. split; [reflexivity|]. cbn [Body Read rd Header ContentLength Uncompressed].
  destruct (Header_Del_both (Header res)) as (H1 & H2 & _).
  repeat split; try assumption.
  - apply Header_Get_None. now rewrite canonical_CE.
  - apply Header_Get_None. now rewrite canonical_CL.
Qed.

(** C7.  On every successful decode RoundTrip removes the
    Content-Encoding and the Content-Length entry from the header map
    and leaves every other entry as it was; beside the header map, only
    the declared length (now -1), the Uncompressed flag (now set) and
    the body are changed. *)
Theorem C7_only_two_headers_removed (r : RoundTripper) (req : Request) (res res' : Response) :
  transport r req = inl res ->
  RoundTrip r req = ret res' ->
  decoders (tokens (contentEncoding res)) <> [] ->
  Header res' !! "Content-Encoding" = None
  /\ Header res' !! "Content-Length" = None
  /\ (forall k : string, k <> "Content-Encoding" -> k <> "Content-Length" ->
                         Header res' !! k = Header res !! k)
  /\ ContentLength res' = (-1)%Z
  /\ Uncompressed res' = true
  /\ sameFrame res' res.
Proof.
  intros Hres H Hdec. rewrite (RoundTrip_rounds _ _ _ Hres) in H.
  destruct (String.length (contentEncoding res) =? 0)%nat eqn:Hlen.
  { apply Nat.eqb_eq in Hlen. rewrite (tokens_empty _ Hlen) in Hdec. now contradiction Hdec. }
  destruct (rounds _ _) as [d b| |] eqn:E; try discriminate.
  destruct (fold_through _ _ _ _ _ _ E) as (_ & _ & Hd & _).
  assert (d = true) as ->.
  { rewrite Hd. simpl. destruct (decoders (tokens (contentEncoding res))); [contradiction|reflexivity]. }
  simpl in H. injection H as <-. cbn [Header ContentLength Uncompressed].
  destruct (Header_Del_both (Header res)) as (H1 & H2 & H3).
  repeat split; assumption.
Qed.

(** C2, as amended.  For the plaintext "foobarbaz" first
    gzip-compressed and then deflate-compressed (the DEFLATE decoder on
    the body yields a gzip stream of "foobarbaz"), a response carrying
    those bytes with the header [Content-Encoding: gzip, deflate] is
    decoded by RoundTrip back to exactly the bytes of "foobarbaz". *)
Theorem C2_gzip_then_deflate_decoded (r : RoundTripper) (req : Request) (res : Response) :
  transport r req = inl res ->
  contentEncoding res = "gzip, deflate" ->
  gzipOf foobarbaz (io.asSource (flate.NewReader (io.asSource (Read (Body res))))) ->
  exists res',
    RoundTrip r req = ret res'
    /\ io.ReadAll (Read (Body res')) = (foobarbaz, None)
    /\ kinds (Body res') = Gzip :: Flate :: kinds (Body res).
Proof.
  intros Hres Hce (z & k & Hz & Hp).
  rewrite (RoundTrip_rounds _ _ _ Hres), Hce.
  change (tokens "gzip, deflate") with ["gzip"; "deflate"].
  cbn [fold_right round String.length Nat.eqb].
  rewrite switch_deflate. cbn [round]. rewrite switch_gzip. cbn [Read rd].
  rewrite Hz. cbn [negb].
  eexists. split; [reflexivity|]. cbn [Body Read rd kinds kind].
  split; [assumption|]. now rewrite kinds_readTo.
Qed.

(** X14.  Whatever gzip stream the body is, under [Content-Encoding:
    gzip, deflate] it is not decoded: the DEFLATE decoder comes first
    and fails on the magic byte of gzip, [gzip.NewReader] on top of it
    fails with that, and RoundTrip returns the wrapped error, the
    metadata of the response untouched. *)
Lemma gzip_body_under_gzip_deflate (r : RoundTripper) (req : Request) (res : Response)
      (d : bytes) :
  transport r req = inl res ->
  contentEncoding res = "gzip, deflate" ->
  gzipOf d (io.asSource (Read (Body res))) ->
  exists left,
    RoundTrip r req
    = fail (anError (wrapError
                       "decompress: create gzip reader: flate: corrupt input before offset 1"
                       (CorruptInputError 1)))
           (Some left)
    /\ sameMeta left res.
Proof.
  intros Hres Hce (z & k & Hz & _).
  destruct (gzip_stream_magic _ _ _ Hz) as (t & tl & Hout).
  rewrite (RoundTrip_rounds _ _ _ Hres), Hce.
  change (tokens "gzip, deflate") with ["gzip"; "deflate"].
  cbn [fold_right decompress.round String.length Nat.eqb].
  rewrite switch_deflate. cbn [decompress.round]. rewrite switch_gzip. cbn [Read rd].
  rewrite (flate_rejects_gzip_magic _ _ _ Hout).
  assert (Hg : gzip.NewReader (io.asSource (io.mkReader 0 [] (CorruptInputError 1) t))
               = (@inl error io.Reader (CorruptInputError 1), 1%nat))
    by (vm_compute; reflexivity).
  rewrite Hg. cbn [fold_right decompress.round].
  eexists. split; [reflexivity|]. repeat split.
Qed.

(** The response the transport made, as a call leaves it while the
    local variable [body] holds [b], has the metadata of the input. *)
Lemma pointee_meta (res : Response) (b : ReadCloser) :
  sameMeta (pointee res b) res /\ sameFrame (pointee res b) res.
Proof. repeat split. Qed.

(** C8.  Where [gzip.NewReader] fails for a [gzip] token the loop has
    reached (the rounds of the tokens to its right have run through),
    RoundTrip returns an error that wraps the error of the codec behind
    the text "decompress: create gzip reader: ", and the response of the
    transport keeps its headers, declared length and Uncompressed flag.
    Conversely an error of RoundTrip on a response of the transport that
    is no ErrUnsupportedEncoding is such a wrapped error of
    [gzip.NewReader], with the metadata of the response untouched. *)
Theorem C8_gzip_construction_failure (r : RoundTripper) (req : Request) (res : Response) :
  transport r req = inl res ->
  (forall l1 l2 d b cause p,
      tokens (contentEncoding res) = l1 ++ "gzip" :: l2 ->
      rounds (through false (Body res)) l2 = through d b ->
      gzip.NewReader (io.asSource (Read b)) = (inl cause, p) ->
      exists e left,
        RoundTrip r req = fail (anError e) (Some left)
        /\ e = wrapError ("decompress: create gzip reader: " ++ Error cause) cause
        /\ Unwrap e = Some cause
        /\ sameMeta left res)
  /\ (forall e left,
         RoundTrip r req = fail (anError e) left ->
         exists cause src p l,
           gzip.NewReader src = (inl cause, p)
           /\ e = wrapError ("decompress: create gzip reader: " ++ Error cause) cause
           /\ left = Some l /\ sameMeta l res).
Proof.
  intros Hres. rewrite (RoundTrip_rounds _ _ _ Hres). split.
  - intros l1 l2 d b cause p Htok Hl2 Hg.
    destruct (String.length (contentEncoding res) =? 0)%nat eqn:Hlen.
    { apply Nat.eqb_eq in Hlen. rewrite (tokens_empty _ Hlen) in Htok.
      destruct l1 as [|? [|? ?]]; discriminate. }
    rewrite Htok, fold_right_app. cbn [fold_right]. rewrite Hl2. cbn [round].
    rewrite switch_gzip, Hg, fold_round_stopped by discriminate.
    eexists _, _. split; [reflexivity|]. repeat split.
  - intros e left H.
    destruct (String.length (contentEncoding res) =? 0)%nat; [discriminate|].
    destruct (rounds _ _) as [d b|e' b|t b] eqn:E.
    + destruct (negb d); discriminate.
    + injection H as <- <-.
      destruct (fold_gzipFailed _ _ _ _ _ _ E) as (cause & src & p & Hg & ->).
      exists cause, src, p, (pointee res b). repeat split. assumption.
    + discriminate.
Qed.

(** A token that is not recognized, with the rounds of the tokens to its
    right run through, makes RoundTrip return ErrUnsupportedEncoding
    with that token and the response of the transport. *)
Lemma RoundTrip_unknown (r : RoundTripper) (req : Request) (res : Response)
      (l1 l2 : list string) (t : string) (d : bool) (b : ReadCloser) :
  transport r req = inl res ->
  tokens (contentEncoding res) = l1 ++ t :: l2 ->
  recognized t = false ->
  rounds (through false (Body res)) l2 = through d b ->
  RoundTrip r req
  = fail (unsupported (mkErrUnsupportedEncoding (pointee res b) t)) (Some (pointee res b)).
Proof.
  intros Hres Htok Ht Hl2. rewrite (RoundTrip_rounds _ _ _ Hres).
  destruct (String.length (contentEncoding res) =? 0)%nat eqn:Hlen.
  { apply Nat.eqb_eq in Hlen. rewrite (tokens_empty _ Hlen) in Htok.
    destruct l1 as [|? [|? ?]]; try discriminate. injection Htok as <- <-. discriminate. }
  rewrite Htok, fold_right_app. cbn [fold_right]. rewrite Hl2. cbn [round].
  rewrite switch_unrecognized, fold_round_stopped by (assumption || discriminate).
  reflexivity.
Qed.

(** With no [gzip] to the right of the token that is not recognized,
    the response in the error is the response of the transport,
    untouched. *)
Lemma RoundTrip_unknown_untouched (r : RoundTripper) (req : Request) (res : Response)
      (l1 l2 : list string) (t : string) :
  transport r req = inl res ->
  tokens (contentEncoding res) = l1 ++ t :: l2 ->
  recognized t = false ->
  Forall (fun t => recognized t = true /\ t <> "gzip") l2 ->
  RoundTrip r req = fail (unsupported (mkErrUnsupportedEncoding res t)) (Some res).
Proof.
  intros Hres Htok Ht Hl2.
  destruct (fold_no_gzip_untouched brotli_NewReader l2 false (Body res) Hl2)
    as (d & b & E & Hd & Hu).
  rewrite (RoundTrip_unknown r req res l1 l2 t d b Hres Htok Ht E).
  assert (pointee res b = res) as ->; [|reflexivity].
  unfold pointee. rewrite Hd, Nat.add_sub, Hu. now destruct res.
Qed.

(** A token that is not recognized keeps RoundTrip from returning a
    response. *)
Lemma RoundTrip_unrecognized_no_response (r : RoundTripper) (req : Request) (res res' : Response)
      (t : string) :
  transport r req = inl res ->
  In t (tokens (contentEncoding res)) ->
  recognized t = false ->
  RoundTrip r req <> ret res'.
Proof.
  intros Hres Hin Ht H. rewrite (RoundTrip_rounds _ _ _ Hres) in H.
  destruct (String.length (contentEncoding res) =? 0)%nat eqn:Hlen.
  { apply Nat.eqb_eq in Hlen. rewrite (tokens_empty _ Hlen) in Hin.
    destruct Hin as [<- | []]. discriminate. }
  destruct (rounds _ _) as [d b| |] eqn:E; try discriminate.
  destruct (fold_through _ _ _ _ _ _ E) as (Hrec & _).
  rewrite List.Forall_forall in Hrec. specialize (Hrec t Hin). congruence.
Qed.

Lemma pointee_entry (res : Response) : pointee res (Body res) = res.
Proof. unfold pointee. rewrite Nat.sub_diag. now destruct res. Qed.

Lemma caseVariant_unrecognized (t : string) : caseVariant t = true -> recognized t = false.
Proof. unfold caseVariant. destruct (recognized t); [discriminate | reflexivity]. Qed.

(** C9, as amended.  Matching of encoding tokens is exact and
    case-sensitive: for every response whose Content-Encoding header
    contains a token that differs only in letter case from a supported
    name, RoundTrip does not decode, it returns no response; and it
    returns an ErrUnsupportedEncoding carrying that token whenever the
    loop reaches the token, that is when the rounds of the tokens to its
    right run through, as they do when it is the last token. *)
Theorem C9_case_variant_not_decoded (r : RoundTripper) (req : Request) (res : Response)
        (l1 l2 : list string) (t : string) :
  transport r req = inl res ->
  tokens (contentEncoding res) = l1 ++ t :: l2 ->
  caseVariant t = true ->
  (forall res', RoundTrip r req <> ret res')
  /\ (forall d b,
         rounds (through false (Body res)) l2 = through d b ->
         RoundTrip r req
         = fail (unsupported (mkErrUnsupportedEncoding (pointee res b) t))
                (Some (pointee res b)))
  /\ (l2 = [] ->
       RoundTrip r req = fail (unsupported (mkErrUnsupportedEncoding res t)) (Some res)).
Proof.
  intros Hres Htok Hcv. pose proof (caseVariant_unrecognized _ Hcv) as Ht.
  split; [|split].
  - intros res'. apply (RoundTrip_unrecognized_no_response _ _ _ _ t Hres); [|assumption].
    rewrite Htok. apply in_or_app. right. now left.
  - intros d b Hl2. now apply (RoundTrip_unknown r req res l1 l2 t d b).
  - intros ->. rewrite (RoundTrip_unknown r req res l1 [] t false (Body res))
      by (assumption || reflexivity).
    now rewrite pointee_entry.
Qed.

Lemma rightmost_unique (P : string -> Prop) (l1 l1' l2 l2' : list string) (t t' : string) :
  l1 ++ t :: l2 = l1' ++ t' :: l2' ->
  Forall P l2 -> Forall P l2' -> ~ P t -> ~ P t' -> t = t'.
Proof.
  revert l1'. induction l1 as [|x l1 IH]; intros [|y l1'] H H2 H2' Ht Ht'; simpl in H.
  - now injection H.
  - injection H as -> ->. apply Forall_app in H2 as [_ H2]. inversion H2. contradiction.
  - injection H as -> <-. apply Forall_app in H2' as [_ H2']. inversion H2'. contradiction.
  - injection H as _ H. now apply (IH l1').
Qed.

(** C10.  With several tokens that are not recognized in the header,
    the ErrUnsupportedEncoding RoundTrip returns carries the rightmost
    of them: the tokens are examined from the right and the first that
    is not recognized ends the loop.  RoundTrip does return that error,
    with the response of the transport untouched in it, when no [gzip]
    stands to the right of the token, and it never returns a
    response. *)
Theorem C10_rightmost_unrecognized_carried (r : RoundTripper) (req : Request) (res : Response)
        (l1 l2 : list string) (t : string) :
  transport r req = inl res ->
  tokens (contentEncoding res) = l1 ++ t :: l2 ->
  recognized t = false ->
  Forall (fun t => recognized t = true) l2 ->
  (forall e left, RoundTrip r req = fail (unsupported e) left -> Encoding e = t)
  /\ (Forall (fun t => t <> "gzip") l2 ->
       RoundTrip r req = fail (unsupported (mkErrUnsupportedEncoding res t)) (Some res))
  /\ (forall res', RoundTrip r req <> ret res').
Proof.
  intros Hres Htok Ht Hl2. split; [|split].
  - intros e left H. rewrite (RoundTrip_rounds _ _ _ Hres) in H.
    destruct (String.length (contentEncoding res) =? 0)%nat; [discriminate|].
    destruct (rounds _ _) as [d b| |t' b] eqn:E;
      [destruct (negb d); discriminate | discriminate |].
    injection H as <- _. simpl.
    destruct (fold_unknown _ _ _ _ _ _ E) as (k1 & k2 & d2 & Hk & Ht' & Hk2 & _).
    rewrite Htok in Hk. symmetry.
    apply (rightmost_unique (fun t => recognized t = true) _ _ _ _ _ _ Hk); congruence.
  - intros Hg.
    assert (Forall (fun t => recognized t = true /\ t <> "gzip") l2) as Hboth.
    { apply List.Forall_forall. intros x Hx. rewrite List.Forall_forall in Hl2, Hg. auto. }
    now apply (RoundTrip_unknown_untouched r req res l1 l2 t).
  - intros res'. apply (RoundTrip_unrecognized_no_response _ _ _ _ t Hres); [|assumption].
    rewrite Htok. apply in_or_app. right. now left.
Qed.

End Claims.

(** ** Close *)

(** C5.  [Close] of a cascading layer always runs both the [Close] of
    the decoder and the [Close] of the stream beneath, in this order and
    whatever the first returns: the world it leaves is the one after
    both.  If both fail, the error it returns has the text of both
    causes; if one fails, it returns that error; if none fails, it
    returns no error. *)
Theorem C5_close_attempts_both (World : Type)
        (readFrom_Close cascade_Close : World -> option error * World) (w : World) :
  let r := readFrom_Close w in
  let c := cascade_Close (snd r) in
  let result := cascadeReadCloser_Close readFrom_Close cascade_Close w in
  snd result = snd c
  /\ match fst r, fst c with
     | Some rerr, Some cerr =>
         exists e, fst result = Some e
                   /\ Error e = (Error rerr ++ ": " ++ Error cerr)%string
     | Some rerr, None => fst result = Some rerr
     | None, Some cerr => fst result = Some cerr
     | None, None => fst result = None
     end.
Proof.
  unfold cascadeReadCloser_Close. simpl.
  destruct (readFrom_Close w) as [[rerr|] w1]; simpl;
    destruct (cascade_Close w1) as [[cerr|] w2]; simpl; split; try reflexivity.
  eexists. split; reflexivity.
Qed.

(** Closing a stack of streams closes every decoder and the body of the
    transport once, from the outermost layer inwards, whatever the
    single closes return. *)
Lemma Close_closes_every_layer (c : ReadCloser) (log : list closed) :
  snd (Close c log) = log ++ map closedDecoder (kinds c) ++ [closedBody].
Proof.
  revert log. induction c as [r cerr | d c IH]; intros log; [reflexivity|].
  simpl. unfold cascadeReadCloser_Close.
  destruct (decoder_Close d log) as [rerr w1] eqn:E1.
  destruct (Close c w1) as [cerr w2] eqn:E2.
  assert (w1 = log ++ [closedDecoder (kind d)]) as -> by (unfold decoder_Close in E1; congruence).
  specialize (IH (log ++ [closedDecoder (kind d)])). rewrite E2 in IH. simpl in IH.
  destruct rerr, cerr; simpl; rewrite IH, <- app_assoc; reflexivity.
Qed.

(** ** The table of the test, and the inputs that settle the claims *)

Lemma C1_witness :
  transport test.noTransport (test.dr test.mixedRow) test.req = inl test.mixedRow
  /\ test.run test.mixedRow = ret (test.got test.mixedRow)
  /\ (let encodings := strings.Split (contentEncoding test.mixedRow) "," in
      loop test.brotli_id encodings (length encodings) false (Body test.mixedRow)
      = fold_right (next test.brotli_id) (through false (Body test.mixedRow)) encodings
      /\ kinds (Body (test.got test.mixedRow))
         = decoders (tokens (contentEncoding test.mixedRow)) ++ kinds (Body test.mixedRow)
      /\ decodeAll test.brotli_id (decoders (tokens (contentEncoding test.mixedRow)))
                   (Read (Body test.mixedRow))
         = Some (Read (Body (test.got test.mixedRow)))).
Proof.
  assert (H1 : transport test.noTransport (test.dr test.mixedRow) test.req = inl test.mixedRow)
    by reflexivity.
  assert (H2 : test.run test.mixedRow = ret (test.got test.mixedRow))
    by (vm_compute; reflexivity).
  split; [exact H1 | split; [exact H2 |]].
  exact (C1_decoders_in_reverse_order test.brotli_id test.noTransport _ _ _ _ H1 H2).
Defined.

Example row_plain :
  test.run test.plainRow = ret test.plainRow
  /\ observe test.plainRow = (foobarbaz, None, false, 9%Z, "", "9").
Proof. split; vm_compute; reflexivity. Qed.

Example row_gzip :
  test.run test.gzipRow = ret (test.got test.gzipRow)
  /\ observe (test.got test.gzipRow) = (foobarbaz, None, true, (-1)%Z, "", "").
Proof. split; vm_compute; reflexivity. Qed.

Example row_deflate :
  test.run test.deflateRow = ret (test.got test.deflateRow)
  /\ observe (test.got test.deflateRow) = (foobarbaz, None, true, (-1)%Z, "", "").
Proof. split; vm_compute; reflexivity. Qed.

Example row_identity :
  test.run test.identityRow = ret test.identityRow
  /\ observe test.identityRow = (foobarbaz, None, false, 9%Z, "identity", "9").
Proof. split; vm_compute; reflexivity. Qed.

Example row_mixed :
  test.run test.mixedRow = ret (test.got test.mixedRow)
  /\ observe (test.got test.mixedRow) = (foobarbaz, None, true, (-1)%Z, "", "")
  /\ kinds (Body (test.got test.mixedRow)) = [Gzip; Flate].
Proof. split; [|split]; vm_compute; reflexivity. Qed.

(** Closing the body of the row "mixed" closes the gzip reader, the
    flate reader and the body of the transport, and returns no error. *)
Example row_mixed_close :
  Close (Body (test.got test.mixedRow)) []
  = (None, [closedDecoder Gzip; closedDecoder Flate; closedBody]).
Proof. vm_compute. reflexivity. Qed.

Lemma C2_witness :
  transport test.noTransport (test.dr test.mixedRow) test.req = inl test.mixedRow
  /\ contentEncoding test.mixedRow = "gzip, deflate"
  /\ gzipOf foobarbaz (io.asSource (flate.NewReader (io.asSource (Read (Body test.mixedRow)))))
  /\ exists res',
       test.run test.mixedRow = ret res'
       /\ io.ReadAll (Read (Body res')) = (foobarbaz, None)
       /\ kinds (Body res') = Gzip :: Flate :: kinds (Body test.mixedRow).
Proof.
  assert (H1 : transport test.noTransport (test.dr test.mixedRow) test.req = inl test.mixedRow)
    by reflexivity.
  assert (H2 : contentEncoding test.mixedRow = "gzip, deflate") by (vm_compute; reflexivity).
  assert (H3 : gzipOf foobarbaz
                 (io.asSource (flate.NewReader (io.asSource (Read (Body test.mixedRow))))))
    by (apply gzipOfb_gzipOf; vm_compute; reflexivity).
  split; [exact H1 | split; [exact H2 | split; [exact H3 |]]].
  exact (C2_gzip_then_deflate_decoded test.brotli_id test.noTransport _ _ _ H1 H2 H3).
Defined.

(** C2 as stated fails: "foobarbaz" deflate-compressed first and
    gzip-compressed second, under [Content-Encoding: gzip, deflate], is
    not decoded; the DEFLATE decoder is the innermost, meets the gzip
    header and fails, and [gzip.NewReader] on top of it fails with
    that. *)
Lemma C2_counterexample :
  io.ReadAll (flate.NewReader (io.asSource (Read (test.NopCloser test.deflateFoobarbaz))))
  = (foobarbaz, None)
  /\ gzipOf test.deflateFoobarbaz (io.asSource (Read (test.NopCloser test.gzipOfDeflate)))
  /\ contentEncoding test.swappedRow = "gzip, deflate"
  /\ Body test.swappedRow = test.NopCloser test.gzipOfDeflate
  /\ (exists left,
        test.run test.swappedRow
        = fail (anError (wrapError
                           "decompress: create gzip reader: flate: corrupt input before offset 1"
                           (CorruptInputError 1)))
               left)
  /\ ~ (exists res', test.run test.swappedRow = ret res'
                     /\ io.ReadAll (Read (Body res')) = (foobarbaz, None)).
Proof.
  split; [vm_compute; reflexivity|].
  split; [apply gzipOfb_gzipOf; vm_compute; reflexivity|].
  split; [vm_compute; reflexivity|].
  split; [reflexivity|].
  split.
  - eexists. vm_compute. reflexivity.
  - intros (res' & H & _). vm_compute in H. discriminate.
Qed.

Lemma C3_witness :
  transport test.noTransport (test.dr test.gzipRow) test.req = inl test.gzipRow
  /\ contentEncoding test.gzipRow = "gzip"
  /\ gzipOf foobarbaz (io.asSource (Read (Body test.gzipRow)))
  /\ exists res',
       test.run test.gzipRow = ret res'
       /\ io.ReadAll (Read (Body res')) = (foobarbaz, None)
       /\ Header res' !! "Content-Encoding" = None
       /\ Header res' !! "Content-Length" = None
       /\ http.Header_Get (Header res') "Content-Encoding" = ""
       /\ http.Header_Get (Header res') "Content-Length" = ""
       /\ ContentLength res' = (-1)%Z
       /\ Uncompressed res' = true.
Proof.
  assert (H1 : transport test.noTransport (test.dr test.gzipRow) test.req = inl test.gzipRow)
    by reflexivity.
  assert (H2 : contentEncoding test.gzipRow = "gzip") by (vm_compute; reflexivity).
  assert (H3 : gzipOf foobarbaz (io.asSource (Read (Body test.gzipRow))))
    by (apply gzipOfb_gzipOf; vm_compute; reflexivity).
  split; [exact H1 | split; [exact H2 | split; [exact H3 |]]].
  exact (C3_gzip_decoded test.brotli_id test.noTransport _ _ _ _ H1 H2 H3).
Defined.

(** C4 on the row "unsupported encoding" of the test,
    [Content-Encoding: unsupported, gzip] over a gzip stream.  RoundTrip
    returns ErrUnsupportedEncoding with the token "unsupported", and the
    headers, length and flag of its [Original] are those of the input;
    but [gzip.NewReader] has read the header of the body before the
    token "unsupported" was looked at, so the body of [Original] no
    longer reads the bytes the transport delivered: the ten bytes of the
    gzip header, at least, are gone. *)
Theorem C4_original_body_consumed :
  exists u,
    carried (test.run test.unsupportedRow) = Some u
    /\ Encoding u = "unsupported"
    /\ sameMeta (Original u) test.unsupportedRow
    /\ io.ReadAll (Read (Body test.unsupportedRow)) = (test.gzip123, None)
    /\ io.ReadAll (Read (Body (Original u))) = (skipn 10 test.gzip123, None)
    /\ io.ReadAll (Read (Body (Original u))) <> io.ReadAll (Read (Body test.unsupportedRow)).
Proof.
  eexists. split; [vm_compute; reflexivity|].
  split; [reflexivity|]. split; [repeat split|].
  split; [vm_compute; reflexivity|]. split; [vm_compute; reflexivity|].
  vm_compute. discriminate.
Qed.

Lemma C6_witness :
  transport test.noTransport (test.dr test.identityRow) test.req = inl test.identityRow
  /\ (contentEncoding test.identityRow = ""
      \/ Forall (fun t => t = "identity" \/ t = "") (tokens (contentEncoding test.identityRow)))
  /\ test.run test.identityRow = ret test.identityRow.
Proof.
  assert (H1 : transport test.noTransport (test.dr test.identityRow) test.req
               = inl test.identityRow) by reflexivity.
  assert (H2 : contentEncoding test.identityRow = ""
               \/ Forall (fun t => t = "identity" \/ t = "")
                         (tokens (contentEncoding test.identityRow))).
  { right. change (tokens (contentEncoding test.identityRow)) with ["identity"].
    constructor; [now left | constructor]. }
  split; [exact H1 | split; [exact H2 |]].
  exact (C6_no_decoder_returns_input test.brotli_id test.noTransport _ _ _ H1 H2).
Defined.

(** C6 as stated fails: a response without Content-Encoding whose
    Uncompressed flag the transport has set (it decoded the body itself)
    comes back as it is, with the flag set. *)
Lemma C6_counterexample :
  contentEncoding test.decodedByTransport = ""
  /\ test.run test.decodedByTransport = ret test.decodedByTransport
  /\ Uncompressed test.decodedByTransport = true
  /\ ~ (exists res', test.run test.decodedByTransport = ret res'
                     /\ Uncompressed res' = false).
Proof.
  split; [reflexivity|]. split; [reflexivity|]. split; [reflexivity|].
  intros (res' & H & Hf). change (ret test.decodedByTransport = ret res') in H.
  injection H as <-. discriminate.
Qed.

Lemma C7_witness :
  transport test.noTransport (test.dr test.mixedRow) test.req = inl test.mixedRow
  /\ test.run test.mixedRow = ret (test.got test.mixedRow)
  /\ decoders (tokens (contentEncoding test.mixedRow)) <> []
  /\ (Header (test.got test.mixedRow) !! "Content-Encoding" = None
      /\ Header (test.got test.mixedRow) !! "Content-Length" = None
      /\ (forall k : string, k <> "Content-Encoding" -> k <> "Content-Length" ->
                             Header (test.got test.mixedRow) !! k = Header test.mixedRow !! k)
      /\ ContentLength (test.got test.mixedRow) = (-1)%Z
      /\ Uncompressed (test.got test.mixedRow) = true
      /\ sameFrame (test.got test.mixedRow) test.mixedRow).
Proof.
  assert (H1 : transport test.noTransport (test.dr test.mixedRow) test.req = inl test.mixedRow)
    by reflexivity.
  assert (H2 : test.run test.mixedRow = ret (test.got test.mixedRow))
    by (vm_compute; reflexivity).
  assert (H3 : decoders (tokens (contentEncoding test.mixedRow)) <> [])
    by (change (decoders (tokens (contentEncoding test.mixedRow))) with [Gzip; Flate];
        discriminate).
  split; [exact H1 | split; [exact H2 | split; [exact H3 |]]].
  exact (C7_only_two_headers_removed test.brotli_id test.noTransport _ _ _ _ H1 H2 H3).
Defined.

(** The row [Content-Encoding: gzip] over a body that is no gzip stream:
    its first bytes are not the magic bytes of gzip. *)
Lemma C8_witness :
  transport test.noTransport (test.dr test.notGzipRow) test.req = inl test.notGzipRow
  /\ tokens (contentEncoding test.notGzipRow) = [] ++ "gzip" :: []
  /\ gzip.NewReader (io.asSource (Read (Body test.notGzipRow))) = (inl gzip.ErrHeader, 10)
  /\ exists e left,
       test.run test.notGzipRow = fail (anError e) (Some left)
       /\ e = wrapError ("decompress: create gzip reader: " ++ Error gzip.ErrHeader)
                        gzip.ErrHeader
       /\ Unwrap e = Some gzip.ErrHeader
       /\ sameMeta left test.notGzipRow.
Proof.
  assert (H1 : transport test.noTransport (test.dr test.notGzipRow) test.req
               = inl test.notGzipRow) by reflexivity.
  assert (H2 : tokens (contentEncoding test.notGzipRow) = [] ++ "gzip" :: [])
    by (vm_compute; reflexivity).
  assert (H3 : gzip.NewReader (io.asSource (Read (Body test.notGzipRow)))
               = (inl gzip.ErrHeader, 10)) by (vm_compute; reflexivity).
  split; [exact H1 | split; [exact H2 | split; [exact H3 |]]].
  exact (proj1 (C8_gzip_construction_failure test.brotli_id test.noTransport _ _ _ H1)
               [] [] false (Body test.notGzipRow) gzip.ErrHeader 10 H2 eq_refl H3).
Defined.

Lemma C9_witness :
  transport test.noTransport (test.dr test.upperRow) test.req = inl test.upperRow
  /\ tokens (contentEncoding test.upperRow) = [] ++ "GZIP" :: []
  /\ caseVariant "GZIP" = true
  /\ ((forall res', test.run test.upperRow <> ret res')
      /\ (forall d b,
             fold_right (round test.brotli_id) (through false (Body test.upperRow)) []
             = through d b ->
             test.run test.upperRow
             = fail (unsupported (mkErrUnsupportedEncoding (pointee test.upperRow b) "GZIP"))
                    (Some (pointee test.upperRow b)))
      /\ (@nil string = [] ->
          test.run test.upperRow
          = fail (unsupported (mkErrUnsupportedEncoding test.upperRow "GZIP"))
                 (Some test.upperRow))).
Proof.
  assert (H1 : transport test.noTransport (test.dr test.upperRow) test.req = inl test.upperRow)
    by reflexivity.
  assert (H2 : tokens (contentEncoding test.upperRow) = [] ++ "GZIP" :: [])
    by (vm_compute; reflexivity).
  assert (H3 : caseVariant "GZIP" = true) by reflexivity.
  split; [exact H1 | split; [exact H2 | split; [exact H3 |]]].
  exact (C9_case_variant_not_decoded test.brotli_id test.noTransport _ _ _ _ _ _ H1 H2 H3).
Defined.

(** C9 as stated fails: the header [GZIP, bar] contains the token
    [GZIP], which differs from [gzip] in case only, and the
    ErrUnsupportedEncoding RoundTrip returns carries [bar]. *)
Lemma C9_counterexample :
  In "GZIP" (tokens (contentEncoding test.upperBarRow))
  /\ caseVariant "GZIP" = true
  /\ (exists u, carried (test.run test.upperBarRow) = Some u /\ Encoding u = "bar")
  /\ ~ (exists u, carried (test.run test.upperBarRow) = Some u /\ Encoding u = "GZIP").
Proof.
  split; [vm_compute; now left|]. split; [reflexivity|]. split.
  - eexists. split; [vm_compute; reflexivity | reflexivity].
  - intros (u & H & He). vm_compute in H. injection H as <-. discriminate.
Qed.

Lemma C10_witness :
  transport test.noTransport (test.dr test.fooBarRow) test.req = inl test.fooBarRow
  /\ tokens (contentEncoding test.fooBarRow) = ["foo"] ++ "bar" :: []
  /\ recognized "bar" = false
  /\ Forall (fun t => recognized t = true) []
  /\ ((forall e left, test.run test.fooBarRow = fail (unsupported e) left -> Encoding e = "bar")
      /\ (Forall (fun t => t <> "gzip") [] ->
          test.run test.fooBarRow
          = fail (unsupported (mkErrUnsupportedEncoding test.fooBarRow "bar"))
                 (Some test.fooBarRow))
      /\ (forall res', test.run test.fooBarRow <> ret res')).
Proof.
  assert (H1 : transport test.noTransport (test.dr test.fooBarRow) test.req
               = inl test.fooBarRow) by reflexivity.
  assert (H2 : tokens (contentEncoding test.fooBarRow) = ["foo"] ++ "bar" :: [])
    by (vm_compute; reflexivity).
  assert (H3 : recognized "bar" = false) by reflexivity.
  assert (H4 : Forall (fun t => recognized t = true) []) by constructor.
  split; [exact H1 | split; [exact H2 | split; [exact H3 | split; [exact H4 |]]]].
  exact (C10_rightmost_unrecognized_carried test.brotli_id test.noTransport _ _ _ _ _ _
           H1 H2 H3 H4).
Defined.

(** The header [foo, bar] of the claim: the error carries [bar]. *)
Example foo_bar_carries_bar :
  option_map Encoding (carried (test.run test.fooBarRow)) = Some "bar".
Proof. vm_compute. reflexivity. Qed.

(** * Further properties of the package *)

(** ** Close of a stack of streams *)




Section More.

Variable brotli_NewReader : io.Reader -> io.Reader.
Variable http_DefaultTransport : http_RoundTripper.

Local Abbreviation RoundTrip := (decompress.RoundTrip brotli_NewReader http_DefaultTransport).
Local Abbreviation transport := (decompress.transport http_DefaultTransport).
Local Abbreviation rounds := (fold_right (decompress.round brotli_NewReader)).


(** The two ways in which RoundTrip returns a response: the response of
    the transport as it is, when no token has a decoder, or the decoded
    one. *)
Lemma RoundTrip_ret_inv (r : RoundTripper) (req : Request) (res res' : Response) :
  transport r req = inl res ->
  RoundTrip r req = ret res' ->
  (res' = res /\ decoders (tokens (contentEncoding res)) = [])
  \/ (exists b,
        rounds (through false (Body res)) (tokens (contentEncoding res)) = through true b
        /\ decoders (tokens (contentEncoding res)) <> []
        /\ res' = mkResponse (Status res) (StatusCode res) (Proto res)
                    (ProtoMajor res) (ProtoMinor res)
                    (http.Header_Del (http.Header_Del (Header res) "Content-Encoding")
                                     "Content-Length")
                    b (-1)%Z (TransferEncoding res) (Close_ res) true (Trailer res)).
Proof.
  intros Hres H. rewrite (RoundTrip_rounds _ _ _ _ _ Hres) in H.
  destruct (String.length (contentEncoding res) =? 0)%nat eqn:Hlen.
  { injection H as <-. left. apply Nat.eqb_eq in Hlen. now rewrite (tokens_empty _ Hlen). }
  destruct (rounds _ _) as [d b| |] eqn:E; try discriminate.
  destruct (fold_through _ _ _ _ _ _ E) as (_ & _ & Hd & _).
  destruct d; simpl in H; injection H as <-.
  - right. exists b. repeat split.
    simpl in Hd. intros Hnil. rewrite Hnil in Hd. discriminate.
  - left. split; [reflexivity|]. simpl in Hd.
    destruct (decoders (tokens (contentEncoding res))); [reflexivity | discriminate].
Qed.

(** X1.  Closing the body of the response RoundTrip returns closes the
    decoders of the tokens, in the textual order of the tokens, then
    whatever closing the body of the transport closes, each once. *)
Theorem Close_returned_body_layers (r : RoundTripper) (req : Request) (res res' : Response)
        (log : list closed) :
  transport r req = inl res ->
  RoundTrip r req = ret res' ->
  snd (Close (Body res') log)
  = log ++ map closedDecoder (decoders (tokens (contentEncoding res)))
        ++ snd (Close (Body res) []).
Proof.
  intros Hres H. rewrite !Close_closes_every_layer.
  destruct (RoundTrip_ret_inv _ _ _ _ Hres H) as [[-> Hdec] | (b & E & _ & ->)].
  - now rewrite Hdec.
  - destruct (fold_through _ _ _ _ _ _ E) as (_ & Hk & _). cbn [Body].
    rewrite Hk, map_app, <- app_assoc. reflexivity.
Qed.


(** X3.  RoundTrip is idempotent on responses: a response RoundTrip has
    returned, handed to RoundTrip again by any transport, comes back as
    it is. *)
Theorem RoundTrip_idempotent (r r2 : RoundTripper) (req req2 : Request) (res res' : Response) :
  transport r req = inl res ->
  RoundTrip r req = ret res' ->
  transport r2 req2 = inl res' ->
  RoundTrip r2 req2 = ret res'.
Proof.
  intros Hres H Hres2.
  destruct (RoundTrip_ret_inv _ _ _ _ Hres H) as [[-> _] | (b & _ & _ & ->)].
  - rewrite (RoundTrip_rounds _ _ _ _ _ Hres2).
    rewrite (RoundTrip_rounds _ _ _ _ _ Hres) in H. exact H.
  - rewrite (RoundTrip_rounds _ _ _ _ _ Hres2).
    unfold contentEncoding at 1. cbn [Header].
    destruct (Header_Del_both (Header res)) as (H1 & _).
    rewrite (Header_Get_None _ "Content-Encoding") by (now rewrite canonical_CE).
    reflexivity.
Qed.

(** X4.  What RoundTrip never does to a response it returns: it adds no
    header entry and changes none, it does not clear the Uncompressed
    flag, it leaves the declared length or sets it to -1, and it leaves
    every other field but the body. *)
Theorem RoundTrip_only_removes (r : RoundTripper) (req : Request) (res res' : Response) :
  transport r req = inl res ->
  RoundTrip r req = ret res' ->
  (forall (k : string) (v : list string), Header res' !! k = Some v -> Header res !! k = Some v)
  /\ (Uncompressed res = true -> Uncompressed res' = true)
  /\ (ContentLength res' = ContentLength res \/ ContentLength res' = (-1)%Z)
  /\ sameFrame res' res.
Proof.
  intros Hres H.
  destruct (RoundTrip_ret_inv _ _ _ _ Hres H) as [[-> _] | (b & _ & _ & ->)].
  - repeat split; auto.
  - cbn [Header Uncompressed ContentLength]. split; [|repeat split; auto].
    intros k v Hk. unfold http.Header_Del in Hk.
    apply lookup_delete_Some in Hk as [_ Hk]. now apply lookup_delete_Some in Hk as [_ Hk].
Qed.

End More.

(** ** When the body of the transport is read, and when it is not *)

Lemma recognized_or_rightmost (ts : list string) :
  Forall (fun t => recognized t = true) ts
  \/ exists l1 t l2, ts = l1 ++ t :: l2 /\ recognized t = false
                     /\ Forall (fun t => recognized t = true) l2.
Proof.
  induction ts as [|t ts [IH | (l1 & t' & l2 & -> & Ht & Hl2)]].
  - left. constructor.
  - destruct (recognized t) eqn:Ht.
    + left. now constructor.
    + right. now exists [], t, ts.
  - right. now exists (t :: l1), t', l2.
Qed.

Section Reads.

Variable brotli_NewReader : io.Reader -> io.Reader.
Variable http_DefaultTransport : http_RoundTripper.

Local Abbreviation RoundTrip := (decompress.RoundTrip brotli_NewReader http_DefaultTransport).
Local Abbreviation transport := (decompress.transport http_DefaultTransport).
Local Abbreviation rounds := (fold_right (decompress.round brotli_NewReader)).

(** X5.  Without the token [gzip] in the header RoundTrip reads nothing
    of the body and no decoder fails at its making: either RoundTrip
    returns a response, in which the body of the transport lies as it
    was under the new layers (bad data shows when the body is read), or
    it returns ErrUnsupportedEncoding with the response of the transport
    untouched. *)
Theorem RoundTrip_without_gzip_reads_nothing (r : RoundTripper) (req : Request)
        (res : Response) :
  transport r req = inl res ->
  ~ In "gzip" (tokens (contentEncoding res)) ->
  (exists res',
      RoundTrip r req = ret res'
      /\ under (length (decoders (tokens (contentEncoding res)))) (Body res') = Body res)
  \/ (exists t,
        In t (tokens (contentEncoding res)) /\ recognized t = false
        /\ RoundTrip r req = fail (unsupported (mkErrUnsupportedEncoding res t)) (Some res)).
Proof.
  intros Hres Hg.
  assert (Hsub : forall l, (forall t, In t l -> In t (tokens (contentEncoding res))) ->
                           Forall (fun t => recognized t = true) l ->
                           Forall (fun t => recognized t = true /\ t <> "gzip") l).
  { intros l Hl Hr. apply List.Forall_forall. intros t Ht. rewrite List.Forall_forall in Hr.
    split; [now apply Hr|]. intros ->. apply Hg. now apply Hl. }
  destruct (recognized_or_rightmost (tokens (contentEncoding res)))
    as [Hrec | (l1 & t & l2 & Htok & Ht & Hl2)].
  - left. specialize (Hsub _ (fun t H => H) Hrec).
    destruct (fold_no_gzip_untouched brotli_NewReader _ false (Body res) Hsub)
      as (d & b & E & _ & Hu).
    rewrite (RoundTrip_rounds _ _ _ _ _ Hres).
    destruct (String.length (contentEncoding res) =? 0)%nat eqn:Hlen.
    { exists res. split; [reflexivity|]. apply Nat.eqb_eq in Hlen.
      now rewrite (tokens_empty _ Hlen). }
    rewrite E. destruct (fold_through _ _ _ _ _ _ E) as (_ & _ & Hd & Hb & _).
    destruct d; cbn [negb].
    + eexists. split; [reflexivity|]. exact Hu.
    + exists res. split; [reflexivity|]. simpl in Hd.
      destruct (decoders (tokens (contentEncoding res))); [reflexivity | discriminate].
  - right. exists t. split; [rewrite Htok; apply in_or_app; right; now left|].
    split; [assumption|].
    apply (RoundTrip_unknown_untouched _ _ r req res l1 l2 t Hres Htok Ht).
    apply Hsub; [|assumption].
    intros t' Ht'. rewrite Htok. apply in_or_app. right. now right.
Qed.

(** X6.  A token that is not recognized, with [gzip] as the one token to
    its right and a body on which the gzip reader is made: RoundTrip
    returns ErrUnsupportedEncoding with that token, and the body of the
    response in the error has at least ten bytes less to read than the
    transport delivered, the header [gzip.NewReader] has read. *)
Theorem RoundTrip_unknown_after_gzip_reads_header (r : RoundTripper) (req : Request)
        (res : Response) (l1 : list string) (t : string)
        (r0 z : io.Reader) (cerr : option error) (k : nat) :
  transport r req = inl res ->
  Body res = rawBody r0 cerr ->
  tokens (contentEncoding res) = l1 ++ t :: ["gzip"] ->
  recognized t = false ->
  gzip.NewReader (io.asSource r0) = (inr z, k) ->
  exists o,
    RoundTrip r req = fail (unsupported (mkErrUnsupportedEncoding o t)) (Some o)
    /\ sameMeta o res
    /\ length (fst (io.ReadAll (Read (Body o)))) + 10
       <= length (fst (io.ReadAll (Read (Body res)))).
Proof.
  intros Hres Hb Htok Ht Hz.
  destruct (gzip_NewReader_demand _ _ _ Hz) as [Hlen Hk].
  assert (E : rounds (through false (Body res)) ["gzip"]
              = through true (cascadeReadCloser (mkDecoder Gzip z None)
                                                (readTo k (Body res)))).
  { cbn [fold_right decompress.round]. rewrite switch_gzip, Hb. cbn [Read]. now rewrite Hz. }
  rewrite (RoundTrip_unknown _ _ r req res l1 ["gzip"] t _ _ Hres Htok Ht E).
  eexists. split; [reflexivity|]. split; [apply pointee_meta|].
  unfold pointee. rewrite Hb. cbn [depth readTo Nat.sub under withBody Body Read].
  unfold io.ReadAll, io.readTo. cbn [fst].
  destruct (k - io.taken r0) as [|n] eqn:Hn; [lia|].
  cbn [fst io.out]. rewrite !length_map, length_skipn. lia.
Qed.

End Reads.

(** ** The message of ErrUnsupportedEncoding *)

Lemma append_inj_l (p a b : string) : (p ++ a = p ++ b)%string -> a = b.
Proof. induction p as [|c p IH]; simpl; intros H; [assumption|]. injection H as H. auto. Qed.

Lemma append_backtick_inj (a b : string) : (a ++ "`" = b ++ "`")%string -> a = b.
Proof.
  revert b. induction a as [|c a IH]; intros [|c' b] H; simpl in H.
  - reflexivity.
  - injection H as _ H. destruct b; discriminate.
  - injection H as _ H. destruct a; discriminate.
  - injection H as -> H. f_equal. now apply IH.
Qed.

(** X7.  The message of an ErrUnsupportedEncoding tells the token: two
    such errors have the same message exactly when they carry the same
    Encoding, whatever their responses. *)
Theorem ErrUnsupportedEncoding_Error_inj (e1 e2 : ErrUnsupportedEncoding) :
  ErrUnsupportedEncoding_Error e1 = ErrUnsupportedEncoding_Error e2
  <-> Encoding e1 = Encoding e2.
Proof.
  unfold ErrUnsupportedEncoding_Error. split; [|now intros ->].
  intros H. apply append_inj_l in H. now apply append_backtick_inj.
Qed.

(** ** The test helper [copyAndReadAll] *)

Lemma ReadAll_NopCloser (b : bytes) : io.ReadAll (Read (test.NopCloser b)) = (b, None).
Proof.
  unfold io.ReadAll, test.NopCloser. cbn [Read io.out io.stop io.isEOF io.EOF]. f_equal.
  generalize 1. induction b as [|x b IH]; intros n; [reflexivity|].
  simpl. f_equal. apply IH.
Qed.

(** X8.  [copyAndReadAll] leaves the response with a body that holds the
    bytes it has returned: every further call on that response returns
    the same bytes, reports no error and changes nothing.  The bytes of
    two calls on one response are therefore always equal, whatever the
    body was before the first. *)
Theorem copyAndReadAll_idempotent (resp : Response) :
  let first := test.copyAndReadAll resp in
  test.copyAndReadAll (snd first) = (fst (fst first), None, snd first).
Proof.
  unfold test.copyAndReadAll. destruct (io.ReadAll (Read (Body resp))) as [b err].
  cbn [fst snd withBody Body]. rewrite ReadAll_NopCloser. reflexivity.
Qed.

(** ** The token list *)

Local Abbreviation chars := list_ascii_of_string.

Lemma chars_rev_app (s1 s2 : string) :
  chars (String.rev_app s1 s2) = rev (chars s1) ++ chars s2.
Proof.
  revert s2. induction s1 as [|c s1 IH]; intros s2; [reflexivity|].
  simpl. rewrite IH. simpl. now rewrite <- app_assoc.
Qed.

Lemma HasPrefix_empty (s : string) : strings.HasPrefix s "" = true.
Proof. now destruct s. Qed.

Lemma genSplit_comma_length (s cur : string) :
  length (strings.genSplit "," s 0 cur) = S (commas s).
Proof.
  revert cur. induction s as [|c s IH]; intros cur; [reflexivity|].
  cbn [strings.genSplit strings.HasPrefix commas].
  rewrite HasPrefix_empty, andb_true_r, Ascii.eqb_sym.
  destruct (Ascii.eqb c ","); simpl; now rewrite IH.
Qed.

Lemma genSplit_comma_free (s cur : string) :
  ~ In ","%char (chars cur) ->
  Forall (fun p => ~ In ","%char (chars p)) (strings.genSplit "," s 0 cur).
Proof.
  assert (Hrev : forall cur, ~ In ","%char (chars cur) -> ~ In ","%char (chars (String.rev cur))).
  { intros cur' H. unfold String.rev. rewrite chars_rev_app, app_nil_r.
    now rewrite <- in_rev. }
  revert cur. induction s as [|c s IH]; intros cur Hcur.
  - constructor; [now apply Hrev | constructor].
  - cbn [strings.genSplit strings.HasPrefix]. rewrite HasPrefix_empty, andb_true_r.
    destruct (Ascii.eqb_spec "," c) as [<-|Hc].
    + constructor; [now apply Hrev|]. apply IH. simpl. tauto.
    + apply IH. simpl. intros [H|H]; [now apply Hc | now apply Hcur].
Qed.

Lemma stripSeq_suffix (q : list N) (s s' : list ascii) :
  strings.stripSeq q s = Some s' -> exists pre, s = pre ++ s' /\ length pre = length q.
Proof.
  revert s. induction q as [|n q IH]; intros s H.
  - injection H as <-. now exists [].
  - destruct s as [|c s]; [discriminate|]. simpl in H.
    destruct (N.eqb n (N_of_ascii c)); [|discriminate].
    destruct (IH _ H) as (pre & -> & Hl). exists (c :: pre). simpl. now rewrite Hl.
Qed.

Lemma stripSeq_app (q : list N) (s s' x : list ascii) :
  strings.stripSeq q s = Some s' -> strings.stripSeq q (s ++ x) = Some (s' ++ x).
Proof.
  revert s. induction q as [|n q IH]; intros s H.
  - now injection H as <-.
  - destruct s as [|c s]; [discriminate|]. simpl in *.
    destruct (N.eqb n (N_of_ascii c)); [now apply IH | discriminate].
Qed.

Lemma stripSpace_suffix (seqs : list (list N)) (s s' : list ascii) :
  Forall (fun q => q <> []) seqs ->
  strings.stripSpace seqs s = Some s' ->
  exists pre, s = pre ++ s' /\ length s' < length s.
Proof.
  induction 1 as [|q seqs Hq _ IH]; [discriminate|]. simpl.
  destruct (strings.stripSeq q s) as [s1|] eqn:E; [|exact IH].
  intros H. injection H as <-. destruct (stripSeq_suffix _ _ _ E) as (pre & -> & Hl).
  exists pre. split; [reflexivity|]. rewrite length_app.
  destruct q; [contradiction|]. simpl in Hl. lia.
Qed.

Lemma stripSpace_prefix_None (seqs : list (list N)) (p x : list ascii) :
  strings.stripSpace seqs (p ++ x) = None -> strings.stripSpace seqs p = None.
Proof.
  induction seqs as [|q seqs IH]; [reflexivity|]. simpl.
  destruct (strings.stripSeq q p) as [p'|] eqn:E.
  - now rewrite (stripSeq_app _ _ _ x E).
  - destruct (strings.stripSeq q (p ++ x)); [discriminate | exact IH].
Qed.

Lemma trimLeft_suffix (seqs : list (list N)) (fuel : nat) (s : list ascii) :
  Forall (fun q => q <> []) seqs ->
  exists pre, s = pre ++ strings.trimLeft seqs fuel s.
Proof.
  intros Hs. revert s. induction fuel as [|fuel IH]; intros s; [now exists []|].
  simpl. destruct (strings.stripSpace seqs s) as [s'|] eqn:E; [|now exists []].
  destruct (stripSpace_suffix _ _ _ Hs E) as (pre & -> & _).
  destruct (IH s') as (pre' & Hp). exists (pre ++ pre').
  now rewrite <- app_assoc, <- Hp.
Qed.

Lemma trimLeft_done (seqs : list (list N)) (fuel : nat) (s : list ascii) :
  Forall (fun q => q <> []) seqs ->
  length s <= fuel ->
  strings.stripSpace seqs (strings.trimLeft seqs fuel s) = None.
Proof.
  intros Hs. revert s. induction fuel as [|fuel IH]; intros s Hl.
  - destruct s; [|simpl in Hl; lia]. simpl.
    clear Hl. induction Hs as [|q seqs Hq _ IHs]; [reflexivity|].
    simpl. destruct q; [contradiction | exact IHs].
  - simpl. destruct (strings.stripSpace seqs s) as [s'|] eqn:E; [|exact E].
    apply IH. destruct (stripSpace_suffix _ _ _ Hs E) as (_ & _ & Hlt). lia.
Qed.

Lemma trimLeft_id (seqs : list (list N)) (fuel : nat) (s : list ascii) :
  strings.stripSpace seqs s = None -> strings.trimLeft seqs fuel s = s.
Proof. intros H. destruct fuel; [reflexivity|]. simpl. now rewrite H. Qed.

Lemma spaceSeqs_nonempty : Forall (fun q : list N => q <> []) strings.spaceSeqs.
Proof. unfold strings.spaceSeqs. repeat constructor; discriminate. Qed.

Lemma spaceSeqs_rev_nonempty :
  Forall (fun q : list N => q <> []) (map (@rev N) strings.spaceSeqs).
Proof. unfold strings.spaceSeqs. simpl. repeat constructor; discriminate. Qed.

(** [strings.TrimSpace] only takes bytes away. *)
Lemma TrimSpace_In (c : ascii) (t : string) :
  In c (chars (strings.TrimSpace t)) -> In c (chars t).
Proof.
  unfold strings.TrimSpace. rewrite list_ascii_of_string_of_list_ascii.
  set (l := chars t). set (l1 := strings.trimLeft strings.spaceSeqs (length l) l).
  destruct (trimLeft_suffix _ (length l) l spaceSeqs_nonempty) as (pre & Hl).
  destruct (trimLeft_suffix _ (length l1) (rev l1) spaceSeqs_rev_nonempty) as (pre' & Hr).
  fold l1 in Hl. intros H. apply in_rev in H.
  rewrite Hl. apply in_or_app. right. apply in_rev. rewrite Hr.
  apply in_or_app. now right.
Qed.

(** What [strings.TrimSpace] returns has no white space left to trim. *)
Lemma TrimSpace_idempotent (t : string) :
  strings.TrimSpace (strings.TrimSpace t) = strings.TrimSpace t.
Proof.
  unfold strings.TrimSpace at 2. set (l := chars t).
  set (l1 := strings.trimLeft strings.spaceSeqs (length l) l).
  set (r := strings.trimLeft (map (@rev N) strings.spaceSeqs) (length l1) (rev l1)).
  assert (H1 : strings.stripSpace strings.spaceSeqs l1 = None)
    by (apply trimLeft_done; [apply spaceSeqs_nonempty | reflexivity]).
  assert (Hr : strings.stripSpace (map (@rev N) strings.spaceSeqs) r = None)
    by (apply trimLeft_done; [apply spaceSeqs_rev_nonempty | now rewrite length_rev]).
  destruct (trimLeft_suffix _ (length l1) (rev l1) spaceSeqs_rev_nonempty) as (pre & Hp).
  fold r in Hp.
  assert (H2 : strings.stripSpace strings.spaceSeqs (rev r) = None).
  { apply (stripSpace_prefix_None _ _ (rev pre)).
    rewrite <- rev_app_distr, <- Hp, rev_involutive. exact H1. }
  unfold strings.TrimSpace. rewrite list_ascii_of_string_of_list_ascii.
  rewrite (trimLeft_id _ _ _ H2), rev_involutive, (trimLeft_id _ _ _ Hr). reflexivity.
Qed.

Lemma tokens_trimmed (ce : string) :
  Forall (fun t => ~ In ","%char (chars t) /\ strings.TrimSpace t = t) (tokens ce).
Proof.
  unfold tokens, strings.Split. apply List.Forall_map.
  pose proof (genSplit_comma_free ce "" (fun H => H)) as Hf.
  rewrite List.Forall_forall in Hf |- *. intros p Hp. split.
  - intros H. apply TrimSpace_In in H. exact (Hf p Hp H).
  - apply TrimSpace_idempotent.
Qed.

(** X9.  The token list of a header value has one token more than the
    value has commas (so it is never empty), and every token is free of
    commas and already trimmed. *)
Theorem tokens_shape (ce : string) :
  length (tokens ce) = S (commas ce)
  /\ Forall (fun t => ~ In ","%char (chars t) /\ strings.TrimSpace t = t) (tokens ce).
Proof.
  split; [|apply tokens_trimmed].
  unfold tokens, strings.Split. rewrite length_map. apply genSplit_comma_length.
Qed.

Section Tokens.

Variable brotli_NewReader : io.Reader -> io.Reader.
Variable http_DefaultTransport : http_RoundTripper.

Local Abbreviation RoundTrip := (decompress.RoundTrip brotli_NewReader http_DefaultTransport).
Local Abbreviation transport := (decompress.transport http_DefaultTransport).
Local Abbreviation rounds := (fold_right (decompress.round brotli_NewReader)).

(** X10.  The Encoding of an ErrUnsupportedEncoding RoundTrip returns is
    a token of the header that is not recognized; it is not empty, has
    no comma and no white space around it; and the response in the
    error is the response of the transport, with its metadata. *)
Theorem carried_Encoding_shape (r : RoundTripper) (req : Request) (res : Response)
        (e : ErrUnsupportedEncoding) (left : option Response) :
  transport r req = inl res ->
  RoundTrip r req = fail (unsupported e) left ->
  In (Encoding e) (tokens (contentEncoding res))
  /\ recognized (Encoding e) = false
  /\ Encoding e <> ""
  /\ ~ In ","%char (chars (Encoding e))
  /\ strings.TrimSpace (Encoding e) = Encoding e
  /\ left = Some (Original e)
  /\ sameMeta (Original e) res.
Proof.
  intros Hres H. rewrite (RoundTrip_rounds _ _ _ _ _ Hres) in H.
  destruct (String.length (contentEncoding res) =? 0)%nat; [discriminate|].
  destruct (rounds _ _) as [d b| |t b] eqn:E;
    [destruct (negb d); discriminate | discriminate |].
  injection H as <- <-. cbn [Encoding Original].
  destruct (fold_unknown _ _ _ _ _ _ E) as (l1 & l2 & d2 & Htok & Ht & _).
  assert (Hin : In t (tokens (contentEncoding res)))
    by (rewrite Htok; apply in_or_app; right; now left).
  pose proof (tokens_trimmed (contentEncoding res)) as Hshape.
  rewrite List.Forall_forall in Hshape. destruct (Hshape t Hin) as [Hc Htrim].
  repeat split; try assumption.
  intros ->. discriminate.
Qed.

Lemma round_noop (t : string) (acc : looped) :
  noop t = true -> decompress.round brotli_NewReader t acc = acc.
Proof.
  unfold noop. intros H. apply orb_prop in H as [H | H]; apply String.eqb_eq in H; subst t;
    now destruct acc.
Qed.

(** X11.  The tokens [identity] and the empty token are no-ops wherever
    they stand in the header: the loop over a list of encodings ends as
    the loop over the list without them. *)
Theorem loop_skips_noops (encodings : list string) (d : bool) (b : ReadCloser) :
  let rest := List.filter (fun e => negb (noop (strings.TrimSpace e))) encodings in
  loop brotli_NewReader encodings (length encodings) d b
  = loop brotli_NewReader rest (length rest) d b.
Proof.
  cbv zeta. rewrite !loop_fold_right.
  induction encodings as [|e l IH]; [reflexivity|].
  cbn [fold_right List.filter]. rewrite IH. unfold next at 1.
  destruct (noop (strings.TrimSpace e)) eqn:Hn; cbn [negb].
  - now apply round_noop.
  - reflexivity.
Qed.

End Tokens.

(** ** Inputs for the further properties *)

Lemma Close_returned_body_layers_witness :
  transport test.noTransport (test.dr test.mixedRow) test.req = inl test.mixedRow
  /\ test.run test.mixedRow = ret (test.got test.mixedRow)
  /\ snd (Close (Body (test.got test.mixedRow)) [])
     = [] ++ map closedDecoder (decoders (tokens (contentEncoding test.mixedRow)))
          ++ snd (Close (Body test.mixedRow) []).
Proof.
  assert (H1 : transport test.noTransport (test.dr test.mixedRow) test.req = inl test.mixedRow)
    by reflexivity.
  assert (H2 : test.run test.mixedRow = ret (test.got test.mixedRow))
    by (vm_compute; reflexivity).
  split; [exact H1 | split; [exact H2 |]].
  exact (Close_returned_body_layers test.brotli_id test.noTransport _ _ _ _ [] H1 H2).
Defined.


(** The body of that row decodes, and closing it returns the error of
    the body of the transport. *)
Example row_close_fails :
  fst (Close (Body (test.got test.closeFailsRow)) []) = Some (errorString "close failed")
  /\ fst (io.ReadAll (Read (Body (test.got test.closeFailsRow)))) = foobarbaz.
Proof. split; vm_compute; reflexivity. Qed.

Lemma RoundTrip_idempotent_witness :
  transport test.noTransport (test.dr test.gzipRow) test.req = inl test.gzipRow
  /\ test.run test.gzipRow = ret (test.got test.gzipRow)
  /\ transport test.noTransport (test.dr (test.got test.gzipRow)) test.req
     = inl (test.got test.gzipRow)
  /\ test.run (test.got test.gzipRow) = ret (test.got test.gzipRow).
Proof.
  assert (H1 : transport test.noTransport (test.dr test.gzipRow) test.req = inl test.gzipRow)
    by reflexivity.
  assert (H2 : test.run test.gzipRow = ret (test.got test.gzipRow))
    by (vm_compute; reflexivity).
  assert (H3 : transport test.noTransport (test.dr (test.got test.gzipRow)) test.req
               = inl (test.got test.gzipRow)) by reflexivity.
  split; [exact H1 | split; [exact H2 | split; [exact H3 |]]].
  exact (RoundTrip_idempotent test.brotli_id test.noTransport _ _ _ _ _ _ H1 H2 H3).
Defined.

Lemma RoundTrip_only_removes_witness :
  transport test.noTransport (test.dr test.mixedRow) test.req = inl test.mixedRow
  /\ test.run test.mixedRow = ret (test.got test.mixedRow)
  /\ ((forall (k : string) (v : list string),
          Header (test.got test.mixedRow) !! k = Some v -> Header test.mixedRow !! k = Some v)
      /\ (Uncompressed test.mixedRow = true -> Uncompressed (test.got test.mixedRow) = true)
      /\ (ContentLength (test.got test.mixedRow) = ContentLength test.mixedRow
          \/ ContentLength (test.got test.mixedRow) = (-1)%Z)
      /\ sameFrame (test.got test.mixedRow) test.mixedRow).
Proof.
  assert (H1 : transport test.noTransport (test.dr test.mixedRow) test.req = inl test.mixedRow)
    by reflexivity.
  assert (H2 : test.run test.mixedRow = ret (test.got test.mixedRow))
    by (vm_compute; reflexivity).
  split; [exact H1 | split; [exact H2 |]].
  exact (RoundTrip_only_removes test.brotli_id test.noTransport _ _ _ _ H1 H2).
Defined.

Lemma RoundTrip_without_gzip_reads_nothing_witness :
  transport test.noTransport (test.dr test.garbageRow) test.req = inl test.garbageRow
  /\ ~ In "gzip" (tokens (contentEncoding test.garbageRow))
  /\ ((exists res',
          test.run test.garbageRow = ret res'
          /\ under (length (decoders (tokens (contentEncoding test.garbageRow)))) (Body res')
             = Body test.garbageRow)
      \/ (exists t,
            In t (tokens (contentEncoding test.garbageRow)) /\ recognized t = false
            /\ test.run test.garbageRow
               = fail (unsupported (mkErrUnsupportedEncoding test.garbageRow t))
                      (Some test.garbageRow))).
Proof.
  assert (H1 : transport test.noTransport (test.dr test.garbageRow) test.req
               = inl test.garbageRow) by reflexivity.
  assert (H2 : ~ In "gzip" (tokens (contentEncoding test.garbageRow))).
  { change (tokens (contentEncoding test.garbageRow)) with ["deflate"].
    intros [H | []]. discriminate. }
  split; [exact H1 | split; [exact H2 |]].
  exact (RoundTrip_without_gzip_reads_nothing test.brotli_id test.noTransport _ _ _ H1 H2).
Defined.

(** On that row RoundTrip returns a response; the bad data shows when
    the body is read. *)
Example row_garbage :
  test.run test.garbageRow = ret (test.got test.garbageRow)
  /\ snd (io.ReadAll (Read (Body (test.got test.garbageRow)))) = Some (CorruptInputError 1).
Proof. split; vm_compute; reflexivity. Qed.

Lemma RoundTrip_unknown_after_gzip_reads_header_witness :
  transport test.noTransport (test.dr test.unsupportedRow) test.req = inl test.unsupportedRow
  /\ Body test.unsupportedRow = rawBody (Read (test.NopCloser test.gzip123)) None
  /\ tokens (contentEncoding test.unsupportedRow) = [] ++ "unsupported" :: ["gzip"]
  /\ recognized "unsupported" = false
  /\ gzip.NewReader (io.asSource (Read (test.NopCloser test.gzip123)))
     = (inr test.gzip123Reader, test.gzip123Demand)
  /\ exists o,
       test.run test.unsupportedRow
       = fail (unsupported (mkErrUnsupportedEncoding o "unsupported")) (Some o)
       /\ sameMeta o test.unsupportedRow
       /\ length (fst (io.ReadAll (Read (Body o)))) + 10
          <= length (fst (io.ReadAll (Read (Body test.unsupportedRow)))).
Proof.
  assert (H1 : transport test.noTransport (test.dr test.unsupportedRow) test.req
               = inl test.unsupportedRow) by reflexivity.
  assert (H2 : Body test.unsupportedRow = rawBody (Read (test.NopCloser test.gzip123)) None)
    by reflexivity.
  assert (H3 : tokens (contentEncoding test.unsupportedRow) = [] ++ "unsupported" :: ["gzip"])
    by (vm_compute; reflexivity).
  assert (H4 : recognized "unsupported" = false) by reflexivity.
  assert (H5 : gzip.NewReader (io.asSource (Read (test.NopCloser test.gzip123)))
               = (inr test.gzip123Reader, test.gzip123Demand))
    by (vm_compute; reflexivity).
  split; [exact H1 | split; [exact H2 | split; [exact H3 | split; [exact H4 |
    split; [exact H5 |]]]]].
  exact (RoundTrip_unknown_after_gzip_reads_header test.brotli_id test.noTransport
           _ _ _ _ _ _ _ _ _ H1 H2 H3 H4 H5).
Defined.

Lemma carried_Encoding_shape_witness :
  transport test.noTransport (test.dr test.fooBarRow) test.req = inl test.fooBarRow
  /\ test.run test.fooBarRow
     = fail (unsupported (mkErrUnsupportedEncoding test.fooBarRow "bar")) (Some test.fooBarRow)
  /\ (In "bar" (tokens (contentEncoding test.fooBarRow))
      /\ recognized "bar" = false
      /\ "bar" <> ""
      /\ ~ In ","%char (list_ascii_of_string "bar")
      /\ strings.TrimSpace "bar" = "bar"
      /\ Some test.fooBarRow = Some test.fooBarRow
      /\ sameMeta test.fooBarRow test.fooBarRow).
Proof.
  assert (H1 : transport test.noTransport (test.dr test.fooBarRow) test.req
               = inl test.fooBarRow) by reflexivity.
  assert (H2 : test.run test.fooBarRow
               = fail (unsupported (mkErrUnsupportedEncoding test.fooBarRow "bar"))
                      (Some test.fooBarRow))
    by (vm_compute; reflexivity).
  split; [exact H1 | split; [exact H2 |]].
  exact (carried_Encoding_shape test.brotli_id test.noTransport _ _ _ _ _ H1 H2).
Defined.

Lemma gzip_body_under_gzip_deflate_witness :
  transport test.noTransport (test.dr test.swappedRow) test.req = inl test.swappedRow
  /\ contentEncoding test.swappedRow = "gzip, deflate"
  /\ gzipOf test.deflateFoobarbaz (io.asSource (Read (Body test.swappedRow)))
  /\ exists left,
       test.run test.swappedRow
       = fail (anError (wrapError
                          "decompress: create gzip reader: flate: corrupt input before offset 1"
                          (CorruptInputError 1)))
              (Some left)
       /\ sameMeta left test.swappedRow.
Proof.
  assert (H1 : transport test.noTransport (test.dr test.swappedRow) test.req
               = inl test.swappedRow) by reflexivity.
  assert (H2 : contentEncoding test.swappedRow = "gzip, deflate") by (vm_compute; reflexivity).
  assert (H3 : gzipOf test.deflateFoobarbaz (io.asSource (Read (Body test.swappedRow))))
    by (apply gzipOfb_gzipOf; vm_compute; reflexivity).
  split; [exact H1 | split; [exact H2 | split; [exact H3 |]]].
  exact (gzip_body_under_gzip_deflate test.brotli_id test.noTransport _ _ _ _ H1 H2 H3).
Defined.

(** ** The errors of closing a stack *)

Lemma decoder_Close_error_log (d : decoder) (log : list closed) :
  fst (decoder_Close d log) = fst (decoder_Close d []).
Proof. reflexivity. Qed.

(** X12.  [Close] of a stack swallows no error: the message of the error
    it returns is the messages of all the errors of the single [Close]
    calls, outermost first, joined by ": "; it returns no error exactly
    when no single [Close] fails, and when just one fails it returns
    that very error. *)
Theorem Close_errors_joined (c : ReadCloser) (log : list closed) :
  option_map Error (fst (Close c log)) = joined (closeErrors c)
  /\ (closeErrors c = [] <-> fst (Close c log) = None)
  /\ (forall e, closeErrors c = [e] -> fst (Close c log) = Some e).
Proof.
  revert log. induction c as [r cerr | d c IH]; intros log.
  - simpl. destruct cerr; repeat split; try discriminate; try reflexivity.
    intros e' H. now injection H as <-.
  - cbn [Close closeErrors]. unfold cascadeReadCloser_Close.
    destruct (decoder_Close d log) as [rerr w1] eqn:Ed.
    assert (Hr : fst (decoder_Close d []) = rerr)
      by (rewrite <- (decoder_Close_error_log d log), Ed; reflexivity).
    rewrite Hr. specialize (IH w1).
    destruct (Close c w1) as [cerr w2]. cbn [fst] in IH.
    destruct IH as (IH1 & IH2 & IH3).
    destruct rerr as [a|], cerr as [b|]; cbn [option_list app fst option_map].
    + destruct (closeErrors c) as [|x l] eqn:Ec; [discriminate|].
      injection IH1 as IH1. cbn [map] in IH1.
      split; [|split; [split; intros; discriminate | intros; discriminate]].
      cbn [joined map String.concat]. simpl. f_equal. f_equal. f_equal. exact IH1.
    + destruct (closeErrors c) as [|x l] eqn:Ec; [|discriminate].
      split; [reflexivity|]. split; [split; intros; discriminate|].
      intros e H. now injection H as <-.
    + destruct (closeErrors c) as [|x l] eqn:Ec; [discriminate|].
      split; [exact IH1|]. split; [split; intros; discriminate|].
      intros e H. now apply IH3.
    + destruct (closeErrors c) as [|x l] eqn:Ec; [|discriminate].
      split; [reflexivity|]. split; [split; reflexivity|]. intros; discriminate.
Qed.

(** ** The test helper [newResponse] *)

(** X13.  [newResponse] makes a response from which RoundTrip reads the
    encoding it was given (none for the empty string), whose
    Content-Length header and declared length both tell the length of
    the body, and whose body reads the bytes given. *)
Theorem newResponse_reads_back (b : bytes) (ce : string) :
  contentEncoding (test.newResponse b ce) = ce
  /\ http.Header_Get (Header (test.newResponse b ce)) "Content-Length"
     = itoa (N.of_nat (length b))
  /\ ContentLength (test.newResponse b ce) = Z.of_nat (length b)
  /\ io.ReadAll (Read (Body (test.newResponse b ce))) = (b, None).
Proof.
  unfold contentEncoding, test.newResponse. cbn [Header ContentLength Body].
  unfold http.Header_Get, http.Header_Set. rewrite !canonical_CE, !canonical_CL.
  split; [|split; [|split; [reflexivity | apply ReadAll_NopCloser]]].
  - destruct ce as [|c ce]; cbn [String.length Nat.eqb].
    + rewrite lookup_insert_ne by discriminate. now rewrite lookup_empty.
    + now rewrite lookup_insert_eq.
  - destruct ce as [|c ce]; cbn [String.length Nat.eqb].
    + now rewrite lookup_insert_eq.
    + rewrite lookup_insert_ne by discriminate. now rewrite lookup_insert_eq.
Qed.
